(** * CTMS metrics instrumentation: a shallow embedding of [ctms/metrics.py]

    The development follows the Python module top to bottom:
    - [Py]: the fragment of Python the module relies on (values of a
      [Dict[str, Any]], truthiness, [str], [int], exceptions);
    - [Prometheus]: the [prometheus_client] objects the module drives
      (labelled counters and histograms, and their series);
    - [Metrics]: [METRICS_PARAMS], [init_metrics], [init_metrics_labels]
      and [emit_response_metrics];
    - [Reporting]: collector registries as heap objects and
      [get_metrics_reporting_registry].

    Conventions.  Strings are ASCII text.  Python floats are idealised as
    exact rationals ([Q]): rounding, infinities and NaN are outside the
    model.  Python integers are unbounded ([Z]); [int] and [str] convert
    between an integer and its decimal text whatever its length, as the
    language defines them.  Interpreters since Python 3.11 cap the length
    of such a text (4300 digits unless configured otherwise) and raise
    [ValueError] beyond it: the statements that range over the integers of
    a request context state the cap as a hypothesis ([printable]), the
    others are to be read with the cap lifted.  Mutable objects live in an
    explicit store that every call threads through; an exception leaves the
    store as it was when the exception was raised. *)

From Stdlib Require Import ZArith QArith Ascii String.
From stdpp Require Import gmap strings list fin_maps sorting pretty.

Local Open Scope string_scope.
Local Open Scope Z_scope.

(** ** Python values, exceptions and builtins *)

Module Py.

(** The values a request context (a [Dict[str, Any]]) holds. *)
Inductive value :=
| VNone
| VStr (s : string)
| VInt (n : Z)
| VFloat (q : Q).

Inductive exn :=
| KeyError (key : string)
| ValueError (msg : string)
| TypeError
| OverflowError
| IndexError
| AttributeError (attr : string)
| AssertionError
| ValidationError.

(** Outcome of an expression that may raise. *)
Inductive result (A : Type) :=
| Ok (a : A)
| Raise (e : exn).
Arguments Ok {A} a.
Arguments Raise {A} e.

#[global] Instance result_ret : MRet result := @Ok.
#[global] Instance result_bind : MBind result := λ A B f r,
  match r with
  | Ok a => f a
  | Raise e => Raise e
  end.
#[global] Instance result_fmap : FMap result := λ A B f r,
  match r with
  | Ok a => Ok (f a)
  | Raise e => Raise e
  end.

(** [bool(v)]: what [if v] and [not v] test. *)
Definition truthy (v : value) : bool :=
  match v with
  | VNone => false
  | VStr s => negb (String.eqb s "")
  | VInt n => negb (n =? 0)
  | VFloat q => negb (Qeq_bool q 0)
  end.

(** [d.get(k)]: a missing key reads as [None]. *)
Definition dict_get (d : gmap string value) (k : string) : value :=
  default VNone (d !! k).

(** [d[k]]: a missing key raises [KeyError]. *)
Definition dict_item {V} (d : gmap string V) (k : string) : result V :=
  match d !! k with
  | Some v => Ok v
  | None => Raise (KeyError k)
  end.

(** [sys.get_int_max_str_digits()] as an interpreter sets it by default, and
    the values whose [str] exists under that cap: every value but an
    integer of more decimal digits. *)
Definition int_max_str_digits : Z := 4300.

Definition has_text (v : value) : bool :=
  match v with
  | VInt n => Z.abs n <? 10 ^ int_max_str_digits
  | VNone | VStr _ | VFloat _ => true
  end.

(** [float(n)] for an integer: the nearest float, ties to even.  The
    largest float is [2^1024 - 2^971]; an integer converts when it rounds
    to no more than that, that is when its magnitude is below
    [2^1024 - 2^970], and [OverflowError] is raised otherwise. *)
Definition converts_to_float (n : Z) : bool :=
  Z.abs n <? 2 ^ 1024 - 2 ^ 970.

(** [s[0] + "xx"], the status code family of the text [s] of a status code;
    indexing an empty string raises [IndexError]. *)
Definition first_char_xx (s : string) : result string :=
  match s with
  | String c _ => Ok (String c "xx")
  | EmptyString => Raise IndexError
  end.

(** [s.upper()] on ASCII text. *)
Definition ascii_upper (c : ascii) : ascii :=
  let n := nat_of_ascii c in
  if ((97 <=? n) && (n <=? 122))%nat then ascii_of_nat (n - 32) else c.

Fixpoint upper (s : string) : string :=
  match s with
  | EmptyString => EmptyString
  | String c s' => String (ascii_upper c) (upper s')
  end.

(** [s.endswith(suffix)]. *)
Definition endswith (s suffix : string) : bool :=
  let n := String.length s in
  let k := String.length suffix in
  ((k <=? n)%nat && String.eqb (substring (n - k) k s) suffix)%bool.

(** [int(s)] for a string: optional surrounding whitespace, an optional
    sign, then decimal digits, where single underscores may separate
    digits.  Anything else raises [ValueError]. *)
Definition is_space (c : ascii) : bool :=
  let n := nat_of_ascii c in
  (((9 <=? n) && (n <=? 13)) || ((28 <=? n) && (n <=? 32)))%nat%bool.

Fixpoint lstrip (s : string) : string :=
  match s with
  | String c s' => if is_space c then lstrip s' else s
  | EmptyString => EmptyString
  end.

Definition strip (s : string) : string :=
  String.rev (lstrip (String.rev (lstrip s))).

Definition digit_of (c : ascii) : option Z :=
  let n := nat_of_ascii c in
  if ((48 <=? n) && (n <=? 57))%nat then Some (Z.of_nat (n - 48)) else None.

Fixpoint parse_digits (acc : Z) (after_digit : bool) (s : string) : option Z :=
  match s with
  | EmptyString => if after_digit then Some acc else None
  | String c s' =>
      match digit_of c with
      | Some d => parse_digits (10 * acc + d) true s'
      | None =>
          if (Ascii.eqb c "_" && after_digit)%bool
          then parse_digits acc false s'
          else None
      end
  end.

Definition parse_int (s : string) : option Z :=
  match strip s with
  | String "+" r => parse_digits 0 false r
  | String "-" r => Z.opp <$> parse_digits 0 false r
  | t => parse_digits 0 false t
  end.

Definition int (s : string) : result Z :=
  match parse_int s with
  | Some n => Ok n
  | None => Raise (ValueError "invalid literal for int() with base 10")
  end.

(** [sorted(set(l))] on strings: distinct elements in code point order. *)
Definition sorted_set (l : list string) : list string :=
  merge_sort String.le (remove_dups l).

(** [sorted(l)] on strings. *)
Definition sorted (l : list string) : list string :=
  merge_sort String.le l.

End Py.
Export Py.

(** ** The metric objects of [prometheus_client] *)

Module Prometheus.

(** A histogram bucket's upper bound; [INF] is [float("inf")]. *)
Inductive bound :=
| Bound (q : Q)
| INF.

(** [amount <= bound]. *)
Definition le_bound (amount : Q) (b : bound) : bool :=
  match b with
  | Bound q => Qle_bool amount q
  | INF => true
  end.

(** The state of one histogram series: [_sum] and [_buckets], the latter
    holding per-bucket (not cumulative) counts, one per upper bound. *)
Record histogram := Hist { h_sum : Q; h_buckets : list Q }.

(** A metric object.  [labelnames] are fixed at construction; a metric
    without label names carries its own [value], a labelled one keeps one
    child per tuple of label values in [children] (its [_metrics] dict). *)
Inductive metric :=
| Counter (labelnames : list string) (value : Q)
    (children : gmap (list string) Q)
| Histogram (labelnames : list string) (upper_bounds : list bound)
    (value : histogram) (children : gmap (list string) histogram).

Definition labelnames_of (m : metric) : list string :=
  match m with
  | Counter ln _ _ => ln
  | Histogram ln _ _ _ => ln
  end.

Definition zero_histogram (upper_bounds : list bound) : histogram :=
  Hist 0 (replicate (length upper_bounds) 0%Q).

(** [kwargs[l]] on the keyword arguments of a call. *)
Fixpoint kw_item (kw : list (string * string)) (l : string) : result string :=
  match kw with
  | [] => Raise (KeyError l)
  | (k, v) :: kw' => if String.eqb k l then Ok v else kw_item kw' l
  end.

(** The checks of [MetricWrapperBase.labels], called with positional
    label values [args] or keyword label values [kw],
    yielding the tuple of label values that keys the child.  The label
    values arrive already converted with [str]. *)
Definition label_tuple (ln : list string) (args : list string)
    (kw : list (string * string)) : result (list string) :=
  if bool_decide (ln = []) then
    Raise (ValueError "No label names were set when constructing metric")
  else if bool_decide (args ≠ [] ∧ kw ≠ []) then
    Raise (ValueError "Can't pass both positional and keyword label values")
  else if bool_decide (kw ≠ []) then
    if bool_decide (sorted kw.*1 = sorted ln)
    then mapM (kw_item kw) ln
    else Raise (ValueError "Incorrect label names")
  else
    if bool_decide (length args = length ln)
    then Ok args
    else Raise (ValueError "Incorrect label count").

(** [if labelvalues not in self._metrics: self._metrics[labelvalues] = ...]:
    a missing child is created at zero, an existing one is left alone. *)
Definition touch {V} (zero : V) (key : list string)
    (children : gmap (list string) V) : gmap (list string) V :=
  match children !! key with
  | Some _ => children
  | None => <[key := zero]> children
  end.

Definition ensure_child (m : metric) (key : list string) : metric :=
  match m with
  | Counter ln v ch => Counter ln v (touch 0%Q key ch)
  | Histogram ln ub v ch => Histogram ln ub v (touch (zero_histogram ub) key ch)
  end.

(** Index of the first upper bound with [amount <= bound]. *)
Fixpoint bucket_index (amount : Q) (upper_bounds : list bound) : option nat :=
  match upper_bounds with
  | [] => None
  | b :: bs => if le_bound amount b then Some 0%nat
               else S <$> bucket_index amount bs
  end.

(** [Histogram.observe(amount)] on one series: the sum is updated first,
    then the first bucket whose bound admits the amount. *)
Definition observe_series (upper_bounds : list bound) (amount : Q)
    (h : histogram) : result unit * histogram :=
  let sum := (h_sum h + amount)%Q in
  match bucket_index amount upper_bounds with
  | None => (Ok tt, Hist sum (h_buckets h))
  | Some i =>
      match h_buckets h !! i with
      | Some b => (Ok tt, Hist sum (<[i := (b + 1)%Q]> (h_buckets h)))
      | None => (Raise IndexError, Hist sum (h_buckets h))
      end
  end.

(** The amount of an observation as the number [sum += amount] adds to
    the float sum: a float as it is, an integer converted to a float, which
    raises [OverflowError] when the integer is beyond the range of floats;
    [None] and strings make the addition raise [TypeError]. *)
Definition as_number (v : value) : result Q :=
  match v with
  | VInt n =>
      if converts_to_float n then Ok (inject_Z n) else Raise OverflowError
  | VFloat q => Ok q
  | VNone | VStr _ => Raise TypeError
  end.

(** The [le]-labelled sample of a histogram series as a scrape reports it:
    the running total of the buckets up to and including index [i]. *)
Definition bucket_sample (h : histogram) (i : nat) : Q :=
  foldl Qplus 0%Q (take (S i) (h_buckets h)).

(** The [_count] sample: the running total over all buckets. *)
Definition count_sample (h : histogram) : Q :=
  foldl Qplus 0%Q (h_buckets h).

End Prometheus.
Export Prometheus.

(** ** [ctms/metrics.py] *)

Module Metrics.

(** The metric objects held by a [metrics] dict, under their dict keys.
    The dict itself is never rebound by the module; what changes are the
    metric objects, so the store maps each key to its object's state.
    Distinct keys hold distinct objects, as [init_metrics] builds them. *)
Abbreviation store := (gmap string metric).

(** Computations that read and mutate the metric objects and may raise. *)
Definition M (A : Type) : Type := store → result A * store.

#[global] Instance M_ret : MRet M := λ A a s, (Ok a, s).
#[global] Instance M_bind : MBind M := λ A B f c s,
  match c s with
  | (Ok a, s') => f a s'
  | (Raise e, s') => (Raise e, s')
  end.

(** An expression without effect on the metric objects. *)
Definition lift {A} (r : result A) : M A := λ s, (r, s).

(** [for x in l: body(x)]. *)
Fixpoint for_each {A} (l : list A) (body : A → M unit) : M unit :=
  match l with
  | [] => mret tt
  | x :: l' => body x ≫= λ _, for_each l' body
  end.

(** An expression statement: the value of [c] is dropped. *)
Definition discard {A} (c : M A) : M unit := c ≫= λ _, mret tt.

(** [metrics[key]]: a reference to the metric object under [key]. *)
Definition getitem (key : string) : M string := λ s,
  (match s !! key with
   | Some _ => Ok key
   | None => Raise (KeyError key)
   end, s).

(** A reference to the child of metric [child_of] for the label values
    [child_key]. *)
Record child := Child { child_of : string; child_key : list string }.

(** [m.labels(...)]: checks the label values, creates the child at zero
    when it is new, and returns it. *)
Definition labels (m : string) (args : list string)
    (kw : list (string * string)) : M child := λ s,
  match s !! m with
  | Some metric =>
      match label_tuple (labelnames_of metric) args kw with
      | Ok key => (Ok (Child m key), <[m := ensure_child metric key]> s)
      | Raise e => (Raise e, s)
      end
  | None => (Raise (KeyError m), s)
  end.

(** [c.inc()]: a counter series grows by one; a histogram has no [inc]. *)
Definition inc (c : child) : M unit := λ s,
  match s !! child_of c with
  | Some (Counter ln v ch) =>
      match ch !! child_key c with
      | Some x =>
          (Ok tt,
           <[child_of c := Counter ln v (<[child_key c := (x + 1)%Q]> ch)]> s)
      | None => (Raise (KeyError "labelvalues"), s)
      end
  | Some (Histogram _ _ _ _) => (Raise (AttributeError "inc"), s)
  | None => (Raise (KeyError (child_of c)), s)
  end.

(** [c.observe(amount)]: a histogram series takes the observation; a
    counter has no [observe]. *)
Definition observe (c : child) (amount : value) : M unit := λ s,
  match s !! child_of c with
  | Some (Histogram ln ub v ch) =>
      match ch !! child_key c with
      | Some h =>
          match as_number amount with
          | Ok a =>
              let '(r, h') := observe_series ub a h in
              (r, <[child_of c := Histogram ln ub v (<[child_key c := h']> ch)]> s)
          | Raise e => (Raise e, s)
          end
      | None => (Raise (KeyError "labelvalues"), s)
      end
  | Some (Counter _ _ _) => (Raise (AttributeError "observe"), s)
  | None => (Raise (KeyError (child_of c)), s)
  end.

(** *** [METRICS_PARAMS] and [init_metrics] *)

Inductive metric_type := CounterT | HistogramT.

Record params := Params {
  name : string;
  documentation : string;
  param_labelnames : list string;
  buckets : option (list bound)
}.

(** [Histogram.DEFAULT_BUCKETS], used when no buckets are given. *)
Definition DEFAULT_BUCKETS : list bound :=
  [Bound 0.005; Bound 0.01; Bound 0.025; Bound 0.05; Bound 0.075;
   Bound 0.1; Bound 0.25; Bound 0.5; Bound 0.75; Bound 1; Bound 2.5;
   Bound 5; Bound 7.5; Bound 10; INF]%Q.

Definition METRICS_PARAMS : list (string * (metric_type * params)) :=
  [ ("requests",
     (CounterT,
      Params "ctms_requests_total"
        "Total count of requests by method, path, status code, and status code family."
        ["method"; "path_template"; "status_code"; "status_code_family"]
        None));
    ("requests_duration",
     (HistogramT,
      Params "ctms_requests_duration_seconds"
        "Histogram of requests processing time by path (in seconds)"
        ["method"; "path_template"; "status_code_family"]
        (Some [Bound 0.01; Bound 0.05; Bound 0.1; Bound 0.5; Bound 1;
               Bound 5; Bound 10; INF]%Q)));
    ("api_requests",
     (CounterT,
      Params "ctms_api_requests_total"
        "Total count of API requests by method, path, client ID, and status code family"
        ["method"; "path_template"; "client_id"; "status_code_family"]
        None));
    ("pending_acoustic_sync",
     (CounterT,
      Params "ctms_pending_acoustic_sync_total"
        "Total count of contacts added to Acoustic sync backlog"
        []
        None)) ].

(** [metric_type(registry=registry, **params)]: a new metric object, with no
    child and its own value at zero.  The registration of the object with
    the registry is not part of the store. *)
Definition new_metric (init_bits : metric_type * params) : metric :=
  let '(metric_type, params) := init_bits in
  match metric_type with
  | CounterT => Counter (param_labelnames params) 0%Q ∅
  | HistogramT =>
      let ub := default DEFAULT_BUCKETS (buckets params) in
      Histogram (param_labelnames params) ub (zero_histogram ub) ∅
  end.

(** [init_metrics(registry)]: the metrics dict, one new metric object per
    entry of [METRICS_PARAMS]. *)
Definition init_metrics : store :=
  foldl (λ metrics '(name, init_bits), <[name := new_metric init_bits]> metrics)
        ∅ METRICS_PARAMS.

(** *** [init_metrics_labels] *)

(** One operation of a path item of the OpenAPI document: the keys of its
    ["responses"] dict, when it has one, and whether it has a ["security"]
    key. *)
Record mspec := MSpec { responses : option (list string); security : bool }.

(** [app.openapi()]: under ["paths"], for each path, its items in dict
    order, keyed by lower-case method. *)
Record OpenAPI := { paths : gmap string (list (string * mspec)) }.

(** A [starlette.routing.Route]: [methods] in the iteration order of the
    route's method set, and [path_format]. *)
Record Route := { methods : list string; path_format : string }.

(** An entry of [app.routes]: a [Route], or some other kind of route. *)
Inductive BaseRoute :=
| ARoute (r : Route)
| OtherRoute.

Record FastAPI := { routes : list BaseRoute; openapi : OpenAPI }.

(** [str(status_code)[0] + "xx"] for an integer status code. *)
Definition status_code_family (status_code : Z) : result string :=
  first_char_xx (pretty status_code).

(** [[int(code) for code in list(mspec.get("responses", [200]))]]. *)
Definition response_codes (ms : mspec) : result (list Z) :=
  match responses ms with
  | Some keys => mapM int keys
  | None => Ok [200]
  end.

(** The loop over [api_spec.items()] (lines 123-128), from the current
    [status_codes] and [is_api]. *)
Fixpoint collect_status_codes (methods : list string) (path : string)
    (items : list (string * mspec)) (status_codes : list Z) (is_api : bool)
    : result (list Z * bool) :=
  match items with
  | [] => Ok (status_codes, is_api)
  | (method_lower, ms) :: rest =>
      if bool_decide (upper method_lower ∈ methods) then
        codes ← response_codes ms;
        collect_status_codes methods path rest (status_codes ++ codes)
          (is_api || (security ms && negb (endswith path "from_pubsub")))
      else collect_status_codes methods path rest status_codes is_api
  end.

(** Lines 119-132: the status codes of a route and whether it is an API
    route.  An empty path item is falsy, like a missing one. *)
Definition route_status_codes (openapi : OpenAPI) (methods : list string)
    (path : string) : result (list Z * bool) :=
  match paths openapi !! path with
  | Some (item :: items) =>
      collect_status_codes methods path (item :: items) [] false
  | _ => if String.eqb path "/" then Ok ([307], false) else Ok ([200], false)
  end.

(** The body of the loop over [app.routes] (lines 114-148). *)
Definition init_route_labels (openapi : OpenAPI) (client_ids : list string)
    (request_metric timing_metric api_request_metric : string)
    (route : BaseRoute) : M unit :=
  match route with
  | OtherRoute => lift (Raise AssertionError)
  | ARoute route =>
      let methods := methods route in
      let path := path_format route in
      spec ← lift (route_status_codes openapi methods path);
      let status_codes : list Z := spec.1 in
      let is_api : bool := spec.2 in
      families ← lift (mapM status_code_family status_codes);
      let status_code_families := sorted_set families in
      for_each (list_prod methods status_codes) (λ '(method, status_code),
        status_code_family ← lift (status_code_family status_code);
        discard (labels request_metric
          [method; path; pretty status_code; status_code_family] []));;
      for_each (list_prod methods status_code_families)
        (λ '(method, status_code_family),
        discard (labels timing_metric [method; path; status_code_family] []));;
      if is_api then
        for_each (list_prod methods status_code_families)
          (λ '(method, status_code_family),
          for_each client_ids (λ client_id,
            discard (labels api_request_metric
              [method; path; client_id; status_code_family] [])))
      else (mret tt : M unit)
  end.

(** [init_metrics_labels(dbsession, app, metrics)].  [active_client_ids]
    is what [get_active_api_client_ids(dbsession)] returns. *)
Definition init_metrics_labels (active_client_ids : list string)
    (app : FastAPI) : M unit :=
  let openapi := openapi app in
  let client_ids :=
    if bool_decide (active_client_ids = []) then ["none"]
    else active_client_ids in
  request_metric ← getitem "requests";
  timing_metric ← getitem "requests_duration";
  api_request_metric ← getitem "api_requests";
  for_each (routes app)
    (init_route_labels openapi client_ids
       request_metric timing_metric api_request_metric).

(** *** [emit_response_metrics] *)

Section Emit.

(** [repr] of a float, the text [str] gives for it. *)
Variable float_repr : Q → string.

(** [str(v)]. *)
Definition str (v : value) : string :=
  match v with
  | VNone => "None"
  | VStr s => s
  | VInt n => pretty n
  | VFloat q => float_repr q
  end.

Definition emit_response_metrics (context : gmap string value) : M unit :=
  λ metrics,
  if bool_decide (metrics = ∅) then (Ok tt, metrics)
  else
    let path_template := dict_get context "path_template" in
    if negb (truthy path_template) then (Ok tt, metrics)
    else
      (method ← lift (dict_item context "method");
       duration_s ← lift (dict_item context "duration_s");
       status_code ← lift (dict_item context "status_code");
       status_code_family ← lift (first_char_xx (str status_code));
       requests ← getitem "requests";
       series ← labels requests []
         [("method", str method);
          ("path_template", str path_template);
          ("status_code", str status_code);
          ("status_code_family", status_code_family)];
       inc series;;
       requests_duration ← getitem "requests_duration";
       series ← labels requests_duration []
         [("method", str method);
          ("path_template", str path_template);
          ("status_code_family", status_code_family)];
       observe series duration_s;;
       let client_id := dict_get context "client_id" in
       if truthy client_id then
         api_requests ← getitem "api_requests";
         series ← labels api_requests []
           [("method", str method);
            ("path_template", str path_template);
            ("client_id", str client_id);
            ("status_code_family", status_code_family)];
         inc series
       else mret tt) metrics.

End Emit.

End Metrics.
Export Metrics.

(** ** Collector registries and [get_metrics_reporting_registry] *)

Module Reporting.

(** Modelled from the spec: [ctms/config.py] is not among the sources.  The
    setting read from it is "an optional filesystem path designating a
    multiprocess metrics directory"; a path object is truthy whatever its
    text. *)
Record Path := { fspath : string }.

(** Modelled from the spec: what [config.Settings()] yields when it does not
    raise, reduced to the one field the module reads. *)
Record Settings := { prometheus_multiproc_dir : option Path }.

(** What the function reads from outside: the outcome of
    [config.Settings()] and which paths are directories ([os.path.isdir]). *)
Record environment := {
  config_Settings : result Settings;
  isdir : Path → bool
}.

(** What a [CollectorRegistry] holds. *)
Inductive collector :=
| MetricCollector (name : string)
| MultiProcessCollector (path : Path).

(** Registry objects by identity: a heap from object identities to the
    collectors registered with the object. *)
Abbreviation registry := positive.
Abbreviation heap := (gmap positive (list collector)).

(** [CollectorRegistry()]: a new object, distinct from every live one. *)
Definition new_registry (h : heap) : registry * heap :=
  let r := fresh (dom h) in (r, <[r := []]> h).

(** [MultiProcessCollector(registry, path=path)]: refuses a path that is
    not a directory, otherwise registers itself with the registry. *)
Definition new_MultiProcessCollector (env : environment) (r : registry)
    (path : Path) (h : heap) : result unit * heap :=
  if isdir env path then
    (Ok tt, <[r := (default [] (h !! r) ++ [MultiProcessCollector path])%list]> h)
  else
    (Raise (ValueError "env PROMETHEUS_MULTIPROC_DIR is not set or not a directory"), h).

Definition get_metrics_reporting_registry (env : environment)
    (process_registry : registry) (h : heap) : result registry * heap :=
  let prometheus_multiproc_dir :=
    match config_Settings env with
    | Ok settings => Ok (prometheus_multiproc_dir settings)
    | Raise ValidationError => Ok None
    | Raise e => Raise e
    end in
  match prometheus_multiproc_dir with
  | Raise e => (Raise e, h)
  | Ok (Some dir) =>
      let '(registry, h1) := new_registry h in
      match new_MultiProcessCollector env registry dir h1 with
      | (Ok _, h2) => (Ok registry, h2)
      | (Raise e, h2) => (Raise e, h2)
      end
  | Ok None => (Ok process_registry, h)
  end.

End Reporting.
Export Reporting.

(** ** Vocabulary of the statements *)

(** The label values of the series a metric holds. *)
Definition series_keys (m : metric) : gset (list string) :=
  match m with
  | Counter _ _ ch => dom ch
  | Histogram _ _ _ ch => dom ch
  end.

(** The series present under the metric at dict key [name]. *)
Definition series_of (s : store) (name : string) : gset (list string) :=
  from_option series_keys ∅ (s !! name).

(** The series present in the whole store, per dict key. *)
Definition all_series (s : store) : gmap string (gset (list string)) :=
  series_keys <$> s.

(** The state of a counter series, if present. *)
Definition counter_series (s : store) (name : string) (key : list string)
    : option Q :=
  match s !! name with
  | Some (Counter _ _ ch) => ch !! key
  | _ => None
  end.

(** The state of a histogram series, if present. *)
Definition histogram_series (s : store) (name : string) (key : list string)
    : option histogram :=
  match s !! name with
  | Some (Histogram _ _ _ ch) => ch !! key
  | _ => None
  end.

(** The value a scrape shows for a counter series; a series that does not
    exist yet counts from zero. *)
Definition counter_sample (s : store) (name : string) (key : list string) : Q :=
  default 0%Q (counter_series s name key).

(** The histogram series a scrape reads; a series that does not exist yet
    starts empty. *)
Definition histogram_sample (ub : list bound) (s : store) (name : string)
    (key : list string) : histogram :=
  default (zero_histogram ub) (histogram_series s name key).

(** The upper bounds of the duration histogram, from [METRICS_PARAMS]. *)
Definition DURATION_BUCKETS : list bound :=
  [Bound 0.01; Bound 0.05; Bound 0.1; Bound 0.5; Bound 1;
   Bound 5; Bound 10; INF]%Q.

(** [m] has the shape of [proto]: same kind, label names and upper bounds,
    and each histogram series has one bucket per upper bound. *)
Definition shaped_like (proto m : metric) : Prop :=
  match proto, m with
  | Counter ln _ _, Counter ln' _ _ => ln' = ln
  | Histogram ln ub _ _, Histogram ln' ub' _ ch =>
      ln' = ln ∧ ub' = ub ∧
      ∀ k h, ch !! k = Some h → length (h_buckets h) = length ub
  | _, _ => False
  end.

(** A metrics dict in a state [init_metrics] followed by any use can reach:
    every key of [METRICS_PARAMS] holds a metric of the declared shape. *)
Definition well_formed (s : store) : Prop :=
  Forall (λ entry, ∃ m, s !! entry.1 = Some m ∧ shaped_like (new_metric entry.2) m)
         METRICS_PARAMS.

(** Every series of the metric is at zero. *)
Definition metric_at_zero (m : metric) : Prop :=
  match m with
  | Counter _ _ ch => ∀ k v, ch !! k = Some v → v = 0%Q
  | Histogram _ ub _ ch => ∀ k h, ch !! k = Some h → h = zero_histogram ub
  end.

Definition all_at_zero (s : store) : Prop :=
  ∀ name m, s !! name = Some m → metric_at_zero m.

(** [m'] is [m] with, possibly, more series, all of them at zero. *)
Definition metric_grows (m m' : metric) : Prop :=
  match m, m' with
  | Counter ln v ch, Counter ln' v' ch' =>
      ln' = ln ∧ v' = v ∧ ch ⊆ ch' ∧
      ∀ k x, ch !! k = None → ch' !! k = Some x → x = 0%Q
  | Histogram ln ub v ch, Histogram ln' ub' v' ch' =>
      ln' = ln ∧ ub' = ub ∧ v' = v ∧ ch ⊆ ch' ∧
      ∀ k x, ch !! k = None → ch' !! k = Some x → x = zero_histogram ub
  | _, _ => False
  end.

(** [s'] holds the same metric objects as [s], each possibly grown. *)
Definition store_grows (s s' : store) : Prop :=
  ∀ name, option_Forall2 metric_grows (s !! name) (s' !! name).

(** A computation that only ever pre-creates series: it grows the store,
    and run again from any store grown past its own result it changes
    nothing and ends the same way. *)
Definition settles {A} (c : M A) : Prop :=
  ∀ s r s', c s = (r, s') →
    store_grows s s' ∧ ∀ t, store_grows s' t → c t = (r, t).

(** The store after [m.labels(key)], when the call is accepted. *)
Definition touch_store (m : string) (key : list string) (s : store) : store :=
  match s !! m with
  | Some metric => <[m := ensure_child metric key]> s
  | None => s
  end.

Definition touch_all (m : string) (keys : list (list string)) (s : store)
    : store :=
  foldl (λ s key, touch_store m key s) s keys.

(** The family of an integer status code, as text. *)
Definition family_of (status_code : Z) : string :=
  match status_code_family status_code with
  | Ok f => f
  | Raise _ => ""
  end.

(** The label values [init_metrics_labels] pre-creates for one route with
    the given status codes: request counts, durations, per-client counts. *)
Definition request_keys (methods : list string) (path : string)
    (status_codes : list Z) : list (list string) :=
  '(method, status_code) ← list_prod methods status_codes;
  [[method; path; pretty status_code; family_of status_code]].

Definition families_of (status_codes : list Z) : list string :=
  sorted_set (family_of <$> status_codes).

Definition timing_keys (methods : list string) (path : string)
    (status_codes : list Z) : list (list string) :=
  '(method, family) ← list_prod methods (families_of status_codes);
  [[method; path; family]].

Definition api_keys (methods : list string) (path : string)
    (client_ids : list string) (status_codes : list Z) : list (list string) :=
  '(method, family) ← list_prod methods (families_of status_codes);
  client_id ← client_ids;
  [[method; path; client_id; family]].

(** [get_active_api_client_ids(dbsession) or ["none"]]. *)
Definition client_ids_or_none (active_client_ids : list string) : list string :=
  if bool_decide (active_client_ids = []) then ["none"] else active_client_ids.

(** The per-client series of one entry of [app.routes]. *)
Definition api_series (openapi : OpenAPI) (client_ids : list string)
    (route : BaseRoute) : gset (list string) :=
  match route with
  | ARoute r =>
      match route_status_codes openapi (methods r) (path_format r) with
      | Ok (status_codes, true) =>
          list_to_set (api_keys (methods r) (path_format r) client_ids status_codes)
      | _ => ∅
      end
  | OtherRoute => ∅
  end.

(** The contexts of the specification's examples. *)
Definition api_context : gmap string value :=
  <["method" := VStr "GET"]>
  (<["path_template" := VStr "/ctms/{id}"]>
  (<["status_code" := VInt 200]>
  (<["duration_s" := VFloat 0.02]>
  (<["client_id" := VStr "abc"]> ∅)))).

Definition unmatched_context : gmap string value :=
  <["method" := VStr "GET"]>
  (<["path_template" := VNone]>
  (<["status_code" := VInt 404]>
  (<["duration_s" := VFloat 0.001]>
  (<["client_id" := VNone]> ∅)))).

(** A float [repr] for the examples: only the values they use matter. *)
Definition example_float_repr (q : Q) : string :=
  if Qeq_bool q 0.02 then "0.02" else if Qeq_bool q 0.001 then "0.001" else "0.0".

(** A process with one live registry, the process registry at identity 1,
    which holds the four metrics. *)
Definition example_heap : heap :=
  {[ 1%positive := MetricCollector <$> ["ctms_requests_total";
       "ctms_requests_duration_seconds"; "ctms_api_requests_total";
       "ctms_pending_acoustic_sync_total"] ]}.

Definition example_env (outcome : result Settings) : environment :=
  {| config_Settings := outcome;
     isdir := λ p, String.eqb (fspath p) "/tmp/metrics" |}.

(** The label names of the three request metrics, from [METRICS_PARAMS]. *)
Definition REQUESTS_LABELS : list string :=
  ["method"; "path_template"; "status_code"; "status_code_family"].
Definition DURATION_LABELS : list string :=
  ["method"; "path_template"; "status_code_family"].
Definition API_LABELS : list string :=
  ["method"; "path_template"; "client_id"; "status_code_family"].

(** The metric under [m] exists and has label names [ln]. *)
Definition labelled (s : store) (m : string) (ln : list string) : Prop :=
  ∃ metric, s !! m = Some metric ∧ labelnames_of metric = ln.

(** A counter's series after [labels(key).inc()]. *)
Definition bump (key : list string) (ch : gmap (list string) Q)
    : gmap (list string) Q :=
  <[key := (default 0 (ch !! key) + 1)%Q]> ch.

(** The store after [metrics[name].labels(key).inc()] on a counter. *)
Definition inc_series (name : string) (key : list string) (s : store) : store :=
  match s !! name with
  | Some (Counter ln v ch) => <[name := Counter ln v (bump key ch)]> s
  | _ => s
  end.

(** The store after [metrics[name].labels(key).observe(amount)] on a
    histogram. *)
Definition observe_in (name : string) (key : list string) (amount : Q)
    (s : store) : store :=
  match s !! name with
  | Some (Histogram ln ub v ch) =>
      <[name := Histogram ln ub v
         (<[key := (observe_series ub amount
                      (default (zero_histogram ub) (ch !! key))).2]> ch)]> s
  | _ => s
  end.

(** The store after [emit_response_metrics] has emitted for a matched
    route. *)
Definition emitted (float_repr : Q → string)
    (method path_template status_code client_id : value) (family : string)
    (amount : Q) (s : store) : store :=
  let s1 := inc_series "requests"
              [str float_repr method; str float_repr path_template;
               str float_repr status_code; family] s in
  let s2 := observe_in "requests_duration"
              [str float_repr method; str float_repr path_template; family]
              amount s1 in
  if truthy client_id
  then inc_series "api_requests"
         [str float_repr method; str float_repr path_template;
          str float_repr client_id; family] s2
  else s2.

(** The store after the loop body of [init_metrics_labels] has run for a
    route with the given status codes. *)
Definition route_touched (methods : list string) (path : string)
    (client_ids : list string) (status_codes : list Z) (is_api : bool)
    (s : store) : store :=
  let s1 := touch_all "requests" (request_keys methods path status_codes) s in
  let s2 := touch_all "requests_duration"
              (timing_keys methods path status_codes) s1 in
  if is_api
  then touch_all "api_requests"
         (api_keys methods path client_ids status_codes) s2
  else s2.

(** The OpenAPI document marks one of the route's methods as requiring
    authentication: the path item has an operation, for a method of the
    route, with a ["security"] key. *)
Definition requires_auth (openapi : OpenAPI) (route : Route) : Prop :=
  ∃ items method_lower ms,
    paths openapi !! path_format route = Some items ∧
    (method_lower, ms) ∈ items ∧
    upper method_lower ∈ methods route ∧
    security ms = true.

(** An entry of [app.routes] the loop body gets through: a [Route] whose
    declared response codes all read as integers. *)
Definition route_accepted (openapi : OpenAPI) (r : BaseRoute) : Prop :=
  match r with
  | ARoute route =>
      ∃ status_codes is_api,
        route_status_codes openapi (methods route) (path_format route)
        = Ok (status_codes, is_api)
  | OtherRoute => False
  end.

(** The context fields [emit_response_metrics] turns into label values,
    and the contexts in which each of them has a text: [str] is applied to
    the status code by the function and to every label value by
    [labels]. *)
Definition LABEL_FIELDS : list string :=
  ["method"; "path_template"; "status_code"; "client_id"].

Definition printable (ctx : gmap string value) : Prop :=
  Forall (λ key, has_text (dict_get ctx key) = true) LABEL_FIELDS.

(** More contexts and stores for the examples. *)
Definition anonymous_context : gmap string value :=
  <["method" := VStr "GET"]>
  (<["path_template" := VStr "/ctms/{id}"]>
  (<["status_code" := VInt 200]>
  (<["duration_s" := VFloat 0.02]>
  (<["client_id" := VNone]> ∅)))).

Definition partial_context : gmap string value :=
  {[ "path_template" := VStr "/ctms/{id}" ]}.

Definition other_metrics : store :=
  {[ "pending_acoustic_sync" := Counter [] 0%Q ∅ ]}.

(** A small application: the root redirect, a documentation page and one
    authenticated API route. *)
Definition ctms_route : Route :=
  {| methods := ["GET"]; path_format := "/ctms/{id}" |}.
Definition root_route : Route :=
  {| methods := ["GET"; "HEAD"]; path_format := "/" |}.
Definition docs_route : Route :=
  {| methods := ["GET"; "HEAD"]; path_format := "/docs" |}.

Definition example_openapi : OpenAPI :=
  {| paths := {[ "/ctms/{id}" :=
       [("get", MSpec (Some ["200"; "401"; "404"; "422"]) true);
        ("put", MSpec (Some ["200"; "422"]) true)] ]} |}.

Definition example_app : FastAPI :=
  {| routes := [ARoute root_route; ARoute docs_route; ARoute ctms_route];
     openapi := example_openapi |}.

(** A document that declares the path for another method only. *)
Definition put_only_openapi : OpenAPI :=
  {| paths := {[ "/ctms/{id}" := [("put", MSpec (Some ["200"; "422"]) true)] ]} |}.

(** A document whose path item is the empty dict. *)
Definition empty_item_openapi : OpenAPI :=
  {| paths := {[ "/ctms/{id}" := [] ]} |}.

Definition empty_item_app : FastAPI :=
  {| routes := [ARoute ctms_route]; openapi := empty_item_openapi |}.

(** ** Vocabulary of the further properties *)

(** The dict keys of the three metrics [emit_response_metrics] writes to. *)
Definition REQUEST_METRICS : list string :=
  ["requests"; "requests_duration"; "api_requests"].

(** Every outcome of [c] relates the store before to the store after. *)
Definition effect (R : relation store) {A} (c : M A) : Prop :=
  ∀ s r s', c s = (r, s') → R s s'.

(** [c] can return [a]. *)
Definition returns {A} (c : M A) (a : A) : Prop :=
  ∃ s s', c s = (Ok a, s').

(** From [s] to [s'] the dict keys are the same, no series has gone, and
    only the metrics under the keys in [L] may differ. *)
Definition changes_within (L : list string) (s s' : store) : Prop :=
  dom s' = dom s ∧
  (∀ name, series_of s name ⊆ series_of s' name) ∧
  (∀ name, name ∉ L → s' !! name = s !! name).

(** The declared shape of the metrics carries over from [s] to [s']. *)
Definition keeps_shape (s s' : store) : Prop :=
  well_formed s → well_formed s'.

(** A context of a request that matched a route, as the middleware builds
    it: a path template, a method, an integer status code and a numeric
    duration, with label values that have a text. *)
Definition complete (ctx : gmap string value) : Prop :=
  printable ctx ∧
  truthy (dict_get ctx "path_template") = true ∧
  is_Some (ctx !! "method") ∧
  (∃ n, ctx !! "status_code" = Some (VInt n)) ∧
  (∃ d a, ctx !! "duration_s" = Some d ∧ as_number d = Ok a).

(** The duration a context carries, as a number (zero when it has none). *)
Definition duration_of (ctx : gmap string value) : Q :=
  match as_number (dict_get ctx "duration_s") with
  | Ok a => a
  | Raise _ => 0%Q
  end.

Section ContextKeys.
Variable float_repr : Q → string.

(** [str(status_code)[0] + "xx"] for the status code of a context. *)
Definition family_text (status_code : value) : string :=
  match first_char_xx (str float_repr status_code) with
  | Ok f => f
  | Raise _ => ""
  end.

(** The label values under which [emit_response_metrics] counts a context:
    request count, duration and per-client count. *)
Definition request_key (ctx : gmap string value) : list string :=
  [str float_repr (dict_get ctx "method");
   str float_repr (dict_get ctx "path_template");
   str float_repr (dict_get ctx "status_code");
   family_text (dict_get ctx "status_code")].

Definition duration_key (ctx : gmap string value) : list string :=
  [str float_repr (dict_get ctx "method");
   str float_repr (dict_get ctx "path_template");
   family_text (dict_get ctx "status_code")].

Definition client_key (ctx : gmap string value) : list string :=
  [str float_repr (dict_get ctx "method");
   str float_repr (dict_get ctx "path_template");
   str float_repr (dict_get ctx "client_id");
   family_text (dict_get ctx "status_code")].

(** How many of the contexts are counted under the request labels [key]. *)
Definition requests_with (key : list string)
    (ctxs : list (gmap string value)) : nat :=
  length (filter (λ ctx, request_key ctx = key) ctxs).

(** How many of the contexts carry a client id and are counted under the
    per-client labels [key]. *)
Definition client_requests_with (key : list string)
    (ctxs : list (gmap string value)) : nat :=
  length (filter (λ ctx, truthy (dict_get ctx "client_id") = true
                         ∧ client_key ctx = key) ctxs).

End ContextKeys.

(** [b <= b'] on upper bounds. *)
Definition bound_leb (b b' : bound) : bool :=
  match b, b' with
  | _, INF => true
  | Bound q, Bound q' => Qle_bool q q'
  | INF, Bound _ => false
  end.

(** Upper bounds in ascending order, as [Histogram] requires them. *)
Definition ascending (upper_bounds : list bound) : Prop :=
  StronglySorted (λ b b', bound_leb b b' = true) upper_bounds.

(** A metric with the series [keys] added at zero where they are new. *)
Definition add_series (keys : gset (list string)) (m : metric) : metric :=
  match m with
  | Counter ln v ch => Counter ln v (ch ∪ gset_to_gmap 0%Q keys)
  | Histogram ln ub v ch =>
      Histogram ln ub v (ch ∪ gset_to_gmap (zero_histogram ub) keys)
  end.

(** The store with the request count series [rs], the duration series [ds]
    and the per-client series [cs] added at zero where they are new. *)
Definition pre_registered (rs ds cs : gset (list string)) (s : store) : store :=
  alter (add_series cs) "api_requests"
    (alter (add_series ds) "requests_duration"
       (alter (add_series rs) "requests" s)).

(** The request count series and the duration series of one entry of
    [app.routes]. *)
Definition request_series (openapi : OpenAPI) (route : BaseRoute)
    : gset (list string) :=
  match route with
  | ARoute r =>
      match route_status_codes openapi (methods r) (path_format r) with
      | Ok (status_codes, _) =>
          list_to_set (request_keys (methods r) (path_format r) status_codes)
      | Raise _ => ∅
      end
  | OtherRoute => ∅
  end.

Definition timing_series (openapi : OpenAPI) (route : BaseRoute)
    : gset (list string) :=
  match route with
  | ARoute r =>
      match route_status_codes openapi (methods r) (path_format r) with
      | Ok (status_codes, _) =>
          list_to_set (timing_keys (methods r) (path_format r) status_codes)
      | Raise _ => ∅
      end
  | OtherRoute => ∅
  end.

(** The loop of [init_metrics_labels] over the routes [rs]. *)
Definition init_routes (openapi : OpenAPI) (client_ids : list string)
    (rs : list BaseRoute) : M unit :=
  for_each rs (init_route_labels openapi client_ids
                 "requests" "requests_duration" "api_requests").

(** Further examples: a context whose duration is [None], one whose
    duration is an integer beyond the range of floats, a route list
    with an entry that is not a [Route], the root route with its methods
    in the other order, the example application with its routes in the
    other order, and a pubsub delivery route that declares security. *)
Definition untimed_context : gmap string value :=
  <["duration_s" := VNone]> api_context.

Definition overflowing_context : gmap string value :=
  <["duration_s" := VInt (10 ^ 400)]> api_context.

Definition mixed_app : FastAPI :=
  {| routes := [ARoute root_route; OtherRoute; ARoute ctms_route];
     openapi := example_openapi |}.

Definition root_route_reversed : Route :=
  {| methods := ["HEAD"; "GET"]; path_format := "/" |}.

Definition example_app_reversed : FastAPI :=
  {| routes := [ARoute ctms_route; ARoute docs_route; ARoute root_route];
     openapi := example_openapi |}.

Definition pubsub_route : Route :=
  {| methods := ["POST"]; path_format := "/stripe_from_pubsub" |}.

Definition pubsub_openapi : OpenAPI :=
  {| paths := {[ "/stripe_from_pubsub" :=
       [("post", MSpec (Some ["200"; "422"]) true)] ]} |}.

(** * Properties *)

#[local] Set Warnings "-clear-no-such-hyp".

(** ** The reporting registry *)

Section ReportingProperties.

Lemma new_registry_fresh (h : heap) : h !! (new_registry h).1 = None.
Proof.
  unfold new_registry; simpl.
  apply not_elem_of_dom, is_fresh.
Qed.

Lemma reporting_multiprocess (env : environment) (r : registry) (h : heap)
    (dir : Path) :
  config_Settings env = Ok {| prometheus_multiproc_dir := Some dir |} →
  isdir env dir = true →
  get_metrics_reporting_registry env r h =
    (Ok (fresh (dom h)), <[fresh (dom h) := [MultiProcessCollector dir]]> h).
Proof.
  intros Hs Hd. unfold get_metrics_reporting_registry.
  rewrite Hs; simpl. unfold new_MultiProcessCollector.
  rewrite Hd, lookup_insert_eq; simpl.
  by rewrite insert_insert_eq.
Qed.

(** C3.  With a multiprocess directory configured, every call returns a
    registry object that did not exist before the call -- hence distinct
    from the live process registry and from the one an earlier call
    returned -- holding exactly one multiprocess collector for that
    directory, and leaves the process registry as it was.  With no
    directory configured, the call returns the process registry itself and
    changes nothing. *)
Theorem reporting_registry_selection (env : environment) (r : registry)
    (h : heap) (dir : option Path) :
  r ∈ dom h →
  config_Settings env = Ok {| prometheus_multiproc_dir := dir |} →
  (∀ d, dir = Some d → isdir env d = true) →
  match dir with
  | Some d =>
      ∃ r1 h1 r2 h2,
        get_metrics_reporting_registry env r h = (Ok r1, h1) ∧
        get_metrics_reporting_registry env r h1 = (Ok r2, h2) ∧
        r1 ≠ r ∧ r2 ≠ r ∧ r2 ≠ r1 ∧
        h !! r1 = None ∧ h1 !! r2 = None ∧
        h1 !! r1 = Some [MultiProcessCollector d] ∧
        h2 !! r2 = Some [MultiProcessCollector d] ∧
        h1 !! r = h !! r ∧ h2 !! r = h !! r
  | None => get_metrics_reporting_registry env r h = (Ok r, h)
  end.
Proof.
  intros Hr Hs Hd. destruct dir as [d|].
  - specialize (Hd d eq_refl).
    set (r1 := fresh (dom h)).
    set (h1 := <[r1 := [MultiProcessCollector d]]> h).
    set (r2 := fresh (dom h1)).
    assert (Hr1 : r1 ∉ dom h) by apply is_fresh.
    assert (Hr2 : r2 ∉ dom h1) by apply is_fresh.
    assert (Hne1 : r1 ≠ r) by (intros ->; done).
    assert (Hdom : dom h1 = {[r1]} ∪ dom h) by (unfold h1; apply dom_insert_L).
    assert (Hne2 : r2 ≠ r).
    { intros E. apply Hr2. rewrite E, Hdom. set_solver. }
    assert (Hne3 : r2 ≠ r1).
    { intros E. apply Hr2. rewrite E, Hdom. set_solver. }
    exists r1, h1, r2, (<[r2 := [MultiProcessCollector d]]> h1).
    split; [by apply reporting_multiprocess|].
    split; [by apply reporting_multiprocess|].
    repeat split; try done.
    + by apply not_elem_of_dom.
    + by apply not_elem_of_dom.
    + unfold h1. by rewrite lookup_insert_eq.
    + by rewrite lookup_insert_eq.
    + unfold h1. by rewrite lookup_insert_ne.
    + unfold h1. by rewrite !lookup_insert_ne.
  - unfold get_metrics_reporting_registry. by rewrite Hs.
Qed.

(** C9.  When [config.Settings()] raises a validation error, the call
    returns the process registry it was given, raises nothing and changes
    no registry. *)
Theorem reporting_registry_settings_error (env : environment) (r : registry)
    (h : heap) :
  config_Settings env = Raise ValidationError →
  get_metrics_reporting_registry env r h = (Ok r, h).
Proof.
  intros Hs. unfold get_metrics_reporting_registry. by rewrite Hs.
Qed.

End ReportingProperties.

Lemma reporting_registry_selection_witness :
  (∃ r1 h1 r2 h2,
     get_metrics_reporting_registry
       (example_env (Ok {| prometheus_multiproc_dir := Some {| fspath := "/tmp/metrics" |} |}))
       1%positive example_heap = (Ok r1, h1) ∧
     get_metrics_reporting_registry
       (example_env (Ok {| prometheus_multiproc_dir := Some {| fspath := "/tmp/metrics" |} |}))
       1%positive h1 = (Ok r2, h2) ∧
     r1 ≠ 1%positive ∧ r2 ≠ 1%positive ∧ r2 ≠ r1 ∧
     example_heap !! r1 = None ∧ h1 !! r2 = None ∧
     h1 !! r1 = Some [MultiProcessCollector {| fspath := "/tmp/metrics" |}] ∧
     h2 !! r2 = Some [MultiProcessCollector {| fspath := "/tmp/metrics" |}] ∧
     h1 !! 1%positive = example_heap !! 1%positive ∧
     h2 !! 1%positive = example_heap !! 1%positive) ∧
  get_metrics_reporting_registry
    (example_env (Ok {| prometheus_multiproc_dir := None |}))
    1%positive example_heap = (Ok 1%positive, example_heap).
Proof.
  split.
  - apply (reporting_registry_selection
             (example_env (Ok {| prometheus_multiproc_dir := Some {| fspath := "/tmp/metrics" |} |}))
             1%positive example_heap (Some {| fspath := "/tmp/metrics" |})).
    + vm_compute. reflexivity.
    + reflexivity.
    + intros d [= <-]. reflexivity.
  - apply (reporting_registry_selection
             (example_env (Ok {| prometheus_multiproc_dir := None |}))
             1%positive example_heap None).
    + vm_compute. reflexivity.
    + reflexivity.
    + intros d [=].
Defined.

Lemma reporting_registry_settings_error_witness :
  get_metrics_reporting_registry (example_env (Raise ValidationError))
    1%positive example_heap = (Ok 1%positive, example_heap).
Proof.
  apply (reporting_registry_settings_error
           (example_env (Raise ValidationError)) 1%positive example_heap).
  reflexivity.
Defined.

(** ** Stepping through computations *)

Section MonadSteps.
Context {A B : Type}.

Lemma bind_Ok (c : M A) (f : A → M B) s a s' :
  c s = (Ok a, s') → (c ≫= f) s = f a s'.
Proof. intros H. unfold mbind, M_bind. by rewrite H. Qed.

Lemma bind_Raise (c : M A) (f : A → M B) s e s' :
  c s = (Raise e, s') → (c ≫= f) s = (Raise e, s').
Proof. intros H. unfold mbind, M_bind. by rewrite H. Qed.

Lemma bind_inv (c : M A) (f : A → M B) s r s' :
  (c ≫= f) s = (r, s') →
  (∃ a s1, c s = (Ok a, s1) ∧ f a s1 = (r, s')) ∨
  (∃ e, c s = (Raise e, s') ∧ r = Raise e).
Proof.
  unfold mbind, M_bind. destruct (c s) as [[a|e] s1]; intros H.
  - left. eauto.
  - right. exists e. by simplify_eq.
Qed.
End MonadSteps.

Lemma metric_grows_refl m : metric_grows m m.
Proof.
  destruct m; simpl; repeat split; try done; intros k x H1 H2; congruence.
Qed.

Lemma metric_grows_trans m1 m2 m3 :
  metric_grows m1 m2 → metric_grows m2 m3 → metric_grows m1 m3.
Proof.
  destruct m1 as [ln1 v1 ch1|ln1 ub1 v1 ch1], m2 as [ln2 v2 ch2|ln2 ub2 v2 ch2],
    m3 as [ln3 v3 ch3|ln3 ub3 v3 ch3]; simpl; try done.
  - intros (-> & -> & Hs1 & Hz1) (-> & -> & Hs2 & Hz2).
    repeat split; [by etrans|].
    intros k x Hn Hx. destruct (ch2 !! k) as [y|] eqn:Hy.
    + assert (ch3 !! k = Some y) by (by eapply lookup_weaken).
      simplify_eq. eauto.
    + eauto.
  - intros (-> & -> & -> & Hs1 & Hz1) (-> & -> & -> & Hs2 & Hz2).
    repeat split; [by etrans|].
    intros k x Hn Hx. destruct (ch2 !! k) as [y|] eqn:Hy.
    + assert (ch3 !! k = Some y) by (by eapply lookup_weaken).
      simplify_eq. eauto.
    + eauto.
Qed.

Lemma store_grows_refl s : store_grows s s.
Proof.
  intros name. destruct (s !! name); constructor. apply metric_grows_refl.
Qed.

Lemma store_grows_trans s1 s2 s3 :
  store_grows s1 s2 → store_grows s2 s3 → store_grows s1 s3.
Proof.
  intros H12 H23 name. specialize (H12 name). specialize (H23 name).
  destruct H12; inversion H23; subst; constructor.
  by eapply metric_grows_trans.
Qed.

Lemma touch_lookup {V} (zero : V) (key : list string) (ch : gmap (list string) V) :
  touch zero key ch !! key = Some (default zero (ch !! key)).
Proof.
  unfold touch. destruct (ch !! key) eqn:E; simpl; [done|].
  by rewrite lookup_insert_eq.
Qed.

Lemma touch_present {V} (zero : V) (key : list string) (ch : gmap (list string) V) :
  is_Some (ch !! key) → touch zero key ch = ch.
Proof. intros [v Hv]. unfold touch. by rewrite Hv. Qed.

Lemma touch_subseteq {V} (zero : V) (key : list string) (ch : gmap (list string) V) :
  ch ⊆ touch zero key ch.
Proof.
  unfold touch. destruct (ch !! key) eqn:E; [done|]. by apply insert_subseteq.
Qed.

Lemma touch_new {V} (zero : V) (key : list string) (ch : gmap (list string) V) (k : list string) x :
  ch !! k = None → touch zero key ch !! k = Some x → x = zero.
Proof.
  unfold touch. destruct (ch !! key) eqn:E; [congruence|].
  intros Hk. rewrite lookup_insert. case_decide; [congruence|congruence].
Qed.

Lemma dom_touch {V} (zero : V) (key : list string) (ch : gmap (list string) V) :
  dom (touch zero key ch) = dom ch ∪ {[key]}.
Proof.
  unfold touch. destruct (ch !! key) eqn:E.
  - apply elem_of_dom_2 in E. set_solver.
  - rewrite dom_insert_L. set_solver.
Qed.

Lemma ensure_child_grows m key : metric_grows m (ensure_child m key).
Proof.
  destruct m; simpl; repeat split;
    eauto using touch_subseteq, touch_new.
Qed.

Lemma ensure_child_present m m' key :
  metric_grows (ensure_child m key) m' → ensure_child m' key = m'.
Proof.
  destruct m as [ln v ch|ln ub v ch], m' as [ln' v' ch'|ln' ub' v' ch']; simpl; try done.
  - intros (-> & -> & Hs & _). f_equal. apply touch_present.
    exists (default 0%Q (ch !! key)). eapply lookup_weaken; [|done]. apply touch_lookup.
  - intros (-> & -> & -> & Hs & _). f_equal. apply touch_present.
    eexists. eapply lookup_weaken; [|done]. apply touch_lookup.
Qed.

Lemma metric_grows_labelnames m m' :
  metric_grows m m' → labelnames_of m' = labelnames_of m.
Proof. destruct m, m'; simpl; try done; naive_solver. Qed.

Lemma store_grows_insert s name m m' :
  s !! name = Some m → metric_grows m m' → store_grows s (<[name := m']> s).
Proof.
  intros Hs Hg k. rewrite lookup_insert. case_decide; subst.
  - rewrite Hs. by constructor.
  - destruct (s !! k); constructor. apply metric_grows_refl.
Qed.

(** Settled computations. *)
Lemma settles_ret {A} (a : A) : settles (mret a).
Proof.
  intros s r s' [= <- <-]. split; [apply store_grows_refl|done].
Qed.

Lemma settles_lift {A} (r : result A) : settles (lift r).
Proof.
  intros s r' s' [= <- <-]. split; [apply store_grows_refl|done].
Qed.

Lemma settles_bind {A B} (c : M A) (f : A → M B) :
  settles c → (∀ a, settles (f a)) → settles (c ≫= f).
Proof.
  intros Hc Hf s r s' H.
  apply bind_inv in H as [(a & s1 & H1 & H2)|(e & H1 & ->)].
  - apply Hc in H1 as [G1 R1]. apply Hf in H2 as [G2 R2]. split.
    + by eapply store_grows_trans.
    + intros t Ht. erewrite bind_Ok; [by apply R2|].
      apply R1. by eapply store_grows_trans.
  - apply Hc in H1 as [G1 R1]. split; [done|].
    intros t Ht. by apply bind_Raise, R1.
Qed.

Lemma settles_for_each {A} (l : list A) (body : A → M unit) :
  (∀ x, settles (body x)) → settles (for_each l body).
Proof.
  intros Hb. induction l as [|x l IH]; simpl.
  - apply settles_ret.
  - apply settles_bind; [apply Hb|done].
Qed.

Lemma settles_discard {A} (c : M A) : settles c → settles (discard c).
Proof. intros H. apply settles_bind; [done|]. intros a. apply settles_ret. Qed.

Lemma settles_getitem key : settles (getitem key).
Proof.
  intros s r s' [= <- <-]. split; [apply store_grows_refl|].
  intros t Ht. unfold getitem. f_equal.
  specialize (Ht key). by destruct Ht.
Qed.

Lemma settles_labels m args : settles (labels m args []).
Proof.
  intros s r s'. unfold labels.
  destruct (s !! m) as [metric|] eqn:Hm.
  - destruct (label_tuple (labelnames_of metric) args []) as [key|e] eqn:Hk;
      intros [= <- <-].
    + split; [by eapply store_grows_insert, ensure_child_grows|].
      intros t Ht. pose proof (Ht m) as Htm. rewrite lookup_insert_eq in Htm.
      inversion Htm as [? mt Hg|]; subst.
      rewrite (metric_grows_labelnames _ _ Hg).
      replace (labelnames_of (ensure_child metric key)) with (labelnames_of metric)
        by (by destruct metric).
      rewrite Hk. rewrite (ensure_child_present _ _ _ Hg).
      by rewrite insert_id.
    + split; [apply store_grows_refl|].
      intros t Ht. pose proof (Ht m) as Htm. rewrite Hm in Htm.
      inversion Htm as [? mt Hg|]; subst.
      by rewrite (metric_grows_labelnames _ _ Hg), Hk.
  - intros [= <- <-]. split; [apply store_grows_refl|].
    intros t Ht. pose proof (Ht m) as Htm. rewrite Hm in Htm.
    by inversion Htm.
Qed.

Lemma settles_init_route_labels openapi client_ids rm tm am route :
  settles (init_route_labels openapi client_ids rm tm am route).
Proof.
  destruct route as [route|]; simpl; [|apply settles_lift].
  apply settles_bind; [apply settles_lift|]. intros spec.
  apply settles_bind; [apply settles_lift|]. intros families.
  apply settles_bind.
  { apply settles_for_each. intros [method code].
    apply settles_bind; [apply settles_lift|]. intros fam.
    apply settles_discard, settles_labels. }
  intros _. apply settles_bind.
  { apply settles_for_each. intros [method fam].
    apply settles_discard, settles_labels. }
  intros _. destruct (spec.2); [|apply settles_ret].
  apply settles_for_each. intros [method fam].
  apply settles_for_each. intros cid.
  apply settles_discard, settles_labels.
Qed.

Lemma settles_init_metrics_labels ids app : settles (init_metrics_labels ids app).
Proof.
  unfold init_metrics_labels.
  apply settles_bind; [apply settles_getitem|]. intros rm.
  apply settles_bind; [apply settles_getitem|]. intros tm.
  apply settles_bind; [apply settles_getitem|]. intros am.
  apply settles_for_each. intros route. apply settles_init_route_labels.
Qed.

(** ** Metrics of the declared shape *)

Lemma label_tuple_requests_kw a b c d :
  label_tuple REQUESTS_LABELS []
    [("method", a); ("path_template", b); ("status_code", c); ("status_code_family", d)]
  = Ok [a; b; c; d].
Proof. reflexivity. Qed.

Lemma label_tuple_duration_kw a b d :
  label_tuple DURATION_LABELS []
    [("method", a); ("path_template", b); ("status_code_family", d)]
  = Ok [a; b; d].
Proof. reflexivity. Qed.

Lemma label_tuple_api_kw a b c d :
  label_tuple API_LABELS []
    [("method", a); ("path_template", b); ("client_id", c); ("status_code_family", d)]
  = Ok [a; b; c; d].
Proof. reflexivity. Qed.

Lemma label_tuple_positional ln args :
  ln ≠ [] → length args = length ln → label_tuple ln args [] = Ok args.
Proof.
  intros Hln Hlen. unfold label_tuple.
  rewrite bool_decide_false by done.
  rewrite bool_decide_false by naive_solver.
  rewrite bool_decide_false by naive_solver.
  by rewrite bool_decide_true.
Qed.

Lemma well_formed_inv s :
  well_formed s →
  (∃ v ch, s !! "requests" = Some (Counter REQUESTS_LABELS v ch)) ∧
  (∃ v ch, s !! "requests_duration"
           = Some (Histogram DURATION_LABELS DURATION_BUCKETS v ch) ∧
           ∀ k h, ch !! k = Some h → length (h_buckets h) = length DURATION_BUCKETS) ∧
  (∃ v ch, s !! "api_requests" = Some (Counter API_LABELS v ch)).
Proof.
  unfold well_formed, METRICS_PARAMS. intros H.
  apply Forall_cons in H as [(m1 & H1 & S1) H].
  apply Forall_cons in H as [(m2 & H2 & S2) H].
  apply Forall_cons in H as [(m3 & H3 & S3) H].
  simpl in *.
  destruct m1 as [ln1 v1 ch1|]; [|done].
  destruct m2 as [|ln2 ub2 v2 ch2]; [done|].
  destruct m3 as [ln3 v3 ch3|]; [|done].
  simpl in *. destruct S2 as (-> & -> & S2). subst.
  repeat split; eauto.
Qed.

(** ** What one emission does *)

Lemma insert_touch {V} (zero : V) (key : list string) (ch : gmap (list string) V) x :
  <[key := x]> (touch zero key ch) = <[key := x]> ch.
Proof.
  unfold touch. destruct (ch !! key); [done|]. by rewrite insert_insert_eq.
Qed.

Lemma bucket_index_lt a ub i : bucket_index a ub = Some i → (i < length ub)%nat.
Proof.
  revert i. induction ub as [|b ub IH]; simpl; [done|].
  intros i. destruct (le_bound a b).
  - intros [= <-]. lia.
  - destruct (bucket_index a ub) as [j|]; simpl; [|done].
    intros [= <-]. specialize (IH j eq_refl). lia.
Qed.

Lemma observe_series_ok ub a h :
  length (h_buckets h) = length ub → (observe_series ub a h).1 = Ok tt.
Proof.
  intros Hlen. unfold observe_series.
  destruct (bucket_index a ub) as [i|] eqn:Hi; [|done].
  apply bucket_index_lt in Hi.
  destruct (h_buckets h !! i) eqn:Hb; [done|].
  apply lookup_ge_None in Hb. lia.
Qed.

Lemma shaped_series_length (ub : list bound) (ch : gmap (list string) histogram) key :
  (∀ k h, ch !! k = Some h → length (h_buckets h) = length ub) →
  length (h_buckets (default (zero_histogram ub) (ch !! key))) = length ub.
Proof.
  intros H. destruct (ch !! key) as [h|] eqn:E; simpl; [eauto|].
  by rewrite length_replicate.
Qed.

Lemma store_nonempty (s : store) k m : s !! k = Some m → s ≠ ∅.
Proof. intros H ->. by rewrite lookup_empty in H. Qed.

Lemma getitem_Some (s : store) k m : s !! k = Some m → getitem k s = (Ok k, s).
Proof. intros H. unfold getitem. by rewrite H. Qed.

Lemma labels_Ok (s : store) m metric args kw key :
  s !! m = Some metric →
  label_tuple (labelnames_of metric) args kw = Ok key →
  labels m args kw s = (Ok (Child m key), <[m := ensure_child metric key]> s).
Proof. intros H1 H2. unfold labels. by rewrite H1, H2. Qed.

Lemma labels_inc_then {B} (f : unit → M B) (s : store) m ln v ch kw key :
  s !! m = Some (Counter ln v ch) →
  label_tuple ln [] kw = Ok key →
  (labels m [] kw ≫= λ series, inc series ≫= f) s = f tt (inc_series m key s).
Proof.
  intros H1 H2. erewrite bind_Ok by (eapply labels_Ok; [exact H1|exact H2]).
  apply bind_Ok.
  unfold inc, inc_series; simpl. rewrite lookup_insert_eq, H1.
  rewrite touch_lookup. unfold bump. by rewrite insert_insert_eq, insert_touch.
Qed.

Lemma labels_observe_then {B} (f : unit → M B) (s : store) m ln ub v ch kw key
    amount a :
  s !! m = Some (Histogram ln ub v ch) →
  (∀ k h, ch !! k = Some h → length (h_buckets h) = length ub) →
  label_tuple ln [] kw = Ok key →
  as_number amount = Ok a →
  (labels m [] kw ≫= λ series, observe series amount ≫= f) s
  = f tt (observe_in m key a s).
Proof.
  intros H1 Hlen H2 Ha. erewrite bind_Ok by (eapply labels_Ok; [exact H1|exact H2]).
  apply bind_Ok.
  unfold observe, observe_in; simpl. rewrite lookup_insert_eq, H1, Ha.
  rewrite touch_lookup.
  pose proof (observe_series_ok ub a _ (shaped_series_length ub ch key Hlen)) as Hok.
  destruct (observe_series ub a (default (zero_histogram ub) (ch !! key))) as [r h'].
  simpl in *. subst r. by rewrite insert_insert_eq, insert_touch.
Qed.

Lemma labels_inc_last (s : store) m ln v ch kw key :
  s !! m = Some (Counter ln v ch) →
  label_tuple ln [] kw = Ok key →
  (labels m [] kw ≫= λ series, inc series) s = (Ok tt, inc_series m key s).
Proof.
  intros H1 H2. erewrite bind_Ok by (eapply labels_Ok; [exact H1|exact H2]).
  unfold inc, inc_series; simpl. rewrite lookup_insert_eq, H1.
  rewrite touch_lookup. unfold bump. by rewrite insert_insert_eq, insert_touch.
Qed.

Lemma inc_series_lookup_ne name key s k : k ≠ name → inc_series name key s !! k = s !! k.
Proof.
  intros Hne. unfold inc_series. destruct (s !! name) as [[]|]; try done.
  by rewrite lookup_insert_ne.
Qed.

Lemma observe_in_lookup_ne name key a s k : k ≠ name → observe_in name key a s !! k = s !! k.
Proof.
  intros Hne. unfold observe_in. destruct (s !! name) as [[]|]; try done.
  by rewrite lookup_insert_ne.
Qed.

Section EmitSpec.
Variable fr : Q → string.

Lemma emit_noop (ctx : gmap string value) (s : store) :
  s = ∅ ∨ truthy (dict_get ctx "path_template") = false →
  emit_response_metrics fr ctx s = (Ok tt, s).
Proof.
  intros [->|H]; unfold emit_response_metrics.
  - by rewrite bool_decide_true.
  - case_bool_decide; [done|]. by rewrite H.
Qed.

Lemma bind_lift_Ok {A B} (a : A) (f : A → M B) s : (lift (Ok a) ≫= f) s = f a s.
Proof. reflexivity. Qed.

Lemma emit_spec (ctx : gmap string value) (s : store) vm vd vc fam a :
  well_formed s →
  truthy (dict_get ctx "path_template") = true →
  ctx !! "method" = Some vm →
  ctx !! "duration_s" = Some vd →
  ctx !! "status_code" = Some vc →
  first_char_xx (str fr vc) = Ok fam →
  as_number vd = Ok a →
  emit_response_metrics fr ctx s
  = (Ok tt, emitted fr vm (dict_get ctx "path_template") vc
              (dict_get ctx "client_id") fam a s).
Proof.
  intros Hwf Hp Hm Hd Hc Hfam Ha.
  apply well_formed_inv in Hwf as ((v1 & ch1 & H1) & (v2 & ch2 & H2 & Hlen) & (v3 & ch3 & H3)).
  unfold emit_response_metrics, emitted.
  rewrite (bool_decide_false _ (store_nonempty _ _ _ H1)), Hp. simpl negb. cbv iota.
  unfold dict_item.
  rewrite Hm, bind_lift_Ok, Hd, bind_lift_Ok, Hc, bind_lift_Ok, Hfam, bind_lift_Ok.
  set (s1 := inc_series "requests" _ s).
  set (s2 := observe_in "requests_duration" _ a s1).
  assert (H2' : s1 !! "requests_duration" = s !! "requests_duration")
    by (by apply inc_series_lookup_ne).
  assert (H3' : s2 !! "api_requests" = s !! "api_requests").
  { unfold s2. rewrite observe_in_lookup_ne by done. by apply inc_series_lookup_ne. }
  rewrite H2 in H2'. rewrite H3 in H3'.
  erewrite bind_Ok by (by eapply getitem_Some).
  rewrite (labels_inc_then _ _ _ _ _ _ _ _ H1 (label_tuple_requests_kw _ _ _ _)).
  fold s1.
  erewrite bind_Ok by (by eapply getitem_Some).
  rewrite (labels_observe_then _ _ _ _ _ _ _ _ _ _ _ H2' Hlen
             (label_tuple_duration_kw _ _ _) Ha).
  fold s2.
  destruct (truthy (dict_get ctx "client_id")); [|done].
  erewrite bind_Ok by (by eapply getitem_Some).
  apply (labels_inc_last _ _ _ _ _ _ _ H3' (label_tuple_api_kw _ _ _ _)).
Qed.

(** A call that passes both guards, as the sequence of its steps. *)
Lemma emit_matched (ctx : gmap string value) (s : store) :
  s ≠ ∅ → truthy (dict_get ctx "path_template") = true →
  emit_response_metrics fr ctx s
  = (method ← lift (dict_item ctx "method");
     duration_s ← lift (dict_item ctx "duration_s");
     status_code ← lift (dict_item ctx "status_code");
     status_code_family ← lift (first_char_xx (str fr status_code));
     requests ← getitem "requests";
     series ← labels requests []
       [("method", str fr method);
        ("path_template", str fr (dict_get ctx "path_template"));
        ("status_code", str fr status_code);
        ("status_code_family", status_code_family)];
     inc series;;
     requests_duration ← getitem "requests_duration";
     series ← labels requests_duration []
       [("method", str fr method);
        ("path_template", str fr (dict_get ctx "path_template"));
        ("status_code_family", status_code_family)];
     observe series duration_s;;
     if truthy (dict_get ctx "client_id") then
       api_requests ← getitem "api_requests";
       series ← labels api_requests []
         [("method", str fr method);
          ("path_template", str fr (dict_get ctx "path_template"));
          ("client_id", str fr (dict_get ctx "client_id"));
          ("status_code_family", status_code_family)];
       inc series
     else mret tt) s.
Proof.
  intros Hs Hp. unfold emit_response_metrics.
  rewrite bool_decide_false by done. by rewrite Hp.
Qed.

Lemma bind_lift_Raise {A B} (e : exn) (f : A → M B) s :
  (lift (Raise e) ≫= f) s = (Raise e, s).
Proof. reflexivity. Qed.
End EmitSpec.

Lemma pretty_N_go_nonempty (x : N) (s : string) :
  s ≠ "" → pretty_N_go x s ≠ "".
Proof.
  revert s. induction (N.lt_wf_0 x) as [x _ IH]; intros s Hs.
  destruct (decide (x = 0)%N) as [->|Hx].
  - by rewrite pretty_N_go_0.
  - rewrite pretty_N_go_step by lia. apply IH; [|done].
    apply N.div_lt; lia.
Qed.

Lemma pretty_N_nonempty (x : N) : pretty x ≠ "".
Proof.
  unfold pretty, pretty_N. case_decide; [done|].
  rewrite pretty_N_go_step by lia. by apply pretty_N_go_nonempty.
Qed.

Lemma pretty_Z_nonempty (n : Z) : pretty n ≠ "".
Proof.
  destruct n as [|p|p]; unfold pretty, pretty_Z; [done| |done].
  apply pretty_N_nonempty.
Qed.

Lemma status_code_family_Ok (n : Z) : status_code_family n = Ok (family_of n).
Proof.
  unfold family_of, status_code_family.
  pose proof (pretty_Z_nonempty n) as H.
  by destruct (pretty n).
Qed.

(** Sums of bucket counts. *)
Lemma foldl_Qplus_acc (l : list Q) (a b : Q) :
  (a == b)%Q → (foldl Qplus a l == foldl Qplus b l)%Q.
Proof.
  revert a b. induction l as [|x l IH]; simpl; intros a b H; [done|].
  apply IH. by rewrite H.
Qed.

Lemma foldl_Qplus_shift (l : list Q) (a d : Q) :
  (foldl Qplus (a + d) l == foldl Qplus a l + d)%Q.
Proof.
  revert a. induction l as [|x l IH]; simpl; intros a; [reflexivity|].
  rewrite <- IH. apply foldl_Qplus_acc. ring.
Qed.

Lemma foldl_Qplus_insert (l : list Q) (i : nat) (b a : Q) :
  l !! i = Some b →
  (foldl Qplus a (<[i := (b + 1)%Q]> l) == foldl Qplus a l + 1)%Q.
Proof.
  revert i a. induction l as [|x l IH]; intros [|i] a; simpl; try done.
  - intros [= ->]. rewrite <- foldl_Qplus_shift. apply foldl_Qplus_acc. ring.
  - intros H. by apply IH.
Qed.

Lemma bucket_index_INF a ub : INF ∈ ub → is_Some (bucket_index a ub).
Proof.
  induction ub as [|b ub IH]; [by intros ?%elem_of_nil|].
  intros [<-|H]%elem_of_cons; simpl; [by eexists|].
  destruct (le_bound a b); [by eexists|].
  destruct (IH H) as [i ->]. by eexists.
Qed.

Lemma observe_series_sum ub a h :
  h_sum (observe_series ub a h).2 = (h_sum h + a)%Q.
Proof.
  unfold observe_series. destruct (bucket_index a ub); [|done].
  by destruct (h_buckets h !! n).
Qed.

Lemma observe_series_count ub a h :
  INF ∈ ub → length (h_buckets h) = length ub →
  (count_sample (observe_series ub a h).2 == count_sample h + 1)%Q.
Proof.
  intros Hinf Hlen. unfold observe_series, count_sample.
  destruct (bucket_index_INF a ub Hinf) as [i Hi]. rewrite Hi.
  apply bucket_index_lt in Hi as Hlt.
  destruct (h_buckets h !! i) as [b|] eqn:Hb.
  - simpl. by apply foldl_Qplus_insert.
  - apply lookup_ge_None in Hb. lia.
Qed.

Lemma observe_series_bucket ub a h i j :
  bucket_index a ub = Some i → length (h_buckets h) = length ub → (i ≤ j)%nat →
  (bucket_sample (observe_series ub a h).2 j == bucket_sample h j + 1)%Q.
Proof.
  intros Hi Hlen Hij. unfold observe_series, bucket_sample. rewrite Hi.
  apply bucket_index_lt in Hi as Hlt.
  destruct (h_buckets h !! i) as [b|] eqn:Hb.
  - simpl. rewrite take_insert_lt by lia.
    apply foldl_Qplus_insert. rewrite lookup_take_lt by lia. done.
  - apply lookup_ge_None in Hb. lia.
Qed.

(** Reading series after an update. *)
Lemma counter_sample_inc s name ln v ch key :
  s !! name = Some (Counter ln v ch) →
  counter_sample (inc_series name key s) name key
  = (counter_sample s name key + 1)%Q.
Proof.
  intros H. unfold counter_sample, counter_series, inc_series.
  rewrite H, lookup_insert_eq. unfold bump. by rewrite lookup_insert_eq.
Qed.

Lemma counter_sample_frame s s' name key :
  s' !! name = s !! name → counter_sample s' name key = counter_sample s name key.
Proof. intros H. unfold counter_sample, counter_series. by rewrite H. Qed.

Lemma histogram_sample_frame ub s s' name key :
  s' !! name = s !! name →
  histogram_sample ub s' name key = histogram_sample ub s name key.
Proof. intros H. unfold histogram_sample, histogram_series. by rewrite H. Qed.

Lemma histogram_sample_observe s name ln ub v ch key a :
  s !! name = Some (Histogram ln ub v ch) →
  histogram_sample ub (observe_in name key a s) name key
  = (observe_series ub a (histogram_sample ub s name key)).2.
Proof.
  intros H. unfold histogram_sample, histogram_series, observe_in.
  rewrite H, !lookup_insert_eq. done.
Qed.

Lemma histogram_sample_length s name ln ub v ch key :
  s !! name = Some (Histogram ln ub v ch) →
  (∀ k h, ch !! k = Some h → length (h_buckets h) = length ub) →
  length (h_buckets (histogram_sample ub s name key)) = length ub.
Proof.
  intros H Hlen. unfold histogram_sample, histogram_series. rewrite H.
  by apply shaped_series_length.
Qed.

(** ** Properties of [emit_response_metrics] *)

Lemma init_metrics_well_formed : well_formed init_metrics.
Proof.
  unfold well_formed, METRICS_PARAMS.
  repeat apply Forall_cons_2; try apply Forall_nil_2; simpl;
    (eexists; split; [vm_compute; reflexivity|]); simpl; done.
Qed.

Lemma init_metrics_at_zero : all_at_zero init_metrics.
Proof.
  intros name m H. unfold init_metrics, METRICS_PARAMS in H. simpl in H.
  repeat (apply lookup_insert_Some in H as [[_ <-]|[_ H]];
          [simpl; intros k x; by rewrite lookup_empty|]).
  by rewrite lookup_empty in H.
Qed.

Section EmitApiRequest.
Variable float_repr : Q → string.

Lemma dict_get_Some (ctx : gmap string value) k v :
  ctx !! k = Some v → dict_get ctx k = v.
Proof. intros H. unfold dict_get. by rewrite H. Qed.

(** C1.  For every context with method ["GET"], path template
    ["/ctms/{id}"], status code 200, a duration of 0.02 seconds and client
    id ["abc"], and every metrics dict of the declared shape, the call
    returns normally and
    - the request count series (GET, /ctms/{id}, 200, 2xx) grows by exactly 1;
    - in the duration series (GET, /ctms/{id}, 2xx) the count reported for
      the bucket of upper bound 0.05 grows by 1 and the sum grows by 0.02;
    - the per-client series (GET, /ctms/{id}, abc, 2xx) grows by exactly 1.
    A series that did not exist before the call counts from zero. *)
Theorem emit_api_request (ctx : gmap string value) (s : store) :
  well_formed s →
  ctx !! "method" = Some (VStr "GET") →
  ctx !! "path_template" = Some (VStr "/ctms/{id}") →
  ctx !! "status_code" = Some (VInt 200) →
  ctx !! "duration_s" = Some (VFloat 0.02) →
  ctx !! "client_id" = Some (VStr "abc") →
  ∃ s', emit_response_metrics float_repr ctx s = (Ok tt, s') ∧
    counter_sample s' "requests" ["GET"; "/ctms/{id}"; "200"; "2xx"]
    = (counter_sample s "requests" ["GET"; "/ctms/{id}"; "200"; "2xx"] + 1)%Q ∧
    (let h := histogram_sample DURATION_BUCKETS s "requests_duration"
                ["GET"; "/ctms/{id}"; "2xx"] in
     let h' := histogram_sample DURATION_BUCKETS s' "requests_duration"
                ["GET"; "/ctms/{id}"; "2xx"] in
     DURATION_BUCKETS !! 1%nat = Some (Bound 0.05) ∧
     (bucket_sample h' 1 == bucket_sample h 1 + 1)%Q ∧
     h_sum h' = (h_sum h + 0.02)%Q) ∧
    counter_sample s' "api_requests" ["GET"; "/ctms/{id}"; "abc"; "2xx"]
    = (counter_sample s "api_requests" ["GET"; "/ctms/{id}"; "abc"; "2xx"] + 1)%Q.
Proof.
  intros Hwf Hm Hp Hc Hd Hcid.
  pose proof (well_formed_inv _ Hwf)
    as ((v1 & ch1 & H1) & (v2 & ch2 & H2 & Hlen) & (v3 & ch3 & H3)).
  eexists. split.
  { apply (emit_spec float_repr ctx s (VStr "GET") (VFloat 0.02) (VInt 200)
             "2xx" 0.02%Q Hwf); try done.
    by rewrite (dict_get_Some _ _ _ Hp). }
  rewrite (dict_get_Some _ _ _ Hp), (dict_get_Some _ _ _ Hcid).
  unfold emitted. simpl truthy. cbv iota. simpl str.
  change (pretty 200) with "200".
  set (rk := ["GET"; "/ctms/{id}"; "200"; "2xx"]).
  set (dk := ["GET"; "/ctms/{id}"; "2xx"]).
  set (ak := ["GET"; "/ctms/{id}"; "abc"; "2xx"]).
  set (s1 := inc_series "requests" rk s).
  set (s2 := observe_in "requests_duration" dk 0.02 s1).
  assert (H2' : s1 !! "requests_duration" = s !! "requests_duration")
    by (by apply inc_series_lookup_ne).
  assert (H3' : s2 !! "api_requests" = s !! "api_requests").
  { unfold s2. rewrite observe_in_lookup_ne by done. by apply inc_series_lookup_ne. }
  split; [|split].
  - rewrite (counter_sample_frame s1) by
      (rewrite inc_series_lookup_ne by done; unfold s2;
       by rewrite observe_in_lookup_ne by done).
    by eapply counter_sample_inc.
  - rewrite (histogram_sample_frame _ s2) by (by apply inc_series_lookup_ne).
    unfold s2. rewrite H2 in H2'.
    rewrite (histogram_sample_observe _ _ _ _ _ _ _ _ H2').
    rewrite (histogram_sample_frame _ s s1) by (by rewrite H2', H2).
    split; [done|]. split.
    + apply (observe_series_bucket _ _ _ 1%nat); [done| |done].
      by eapply histogram_sample_length.
    + apply observe_series_sum.
  - rewrite H3 in H3'. erewrite counter_sample_inc by exact H3'.
    f_equal. apply counter_sample_frame. by rewrite H3', H3.
Qed.
End EmitApiRequest.

Section EmitProperties.
Variable float_repr : Q → string.

(** C5.  When the metrics dict is empty, or the context's path template is
    absent (the key is missing, or its value is [None] or otherwise falsy),
    the call returns normally and leaves every metric object as it was: no
    series is created and none changes. *)
Theorem emit_skips (ctx : gmap string value) (s : store) :
  s = ∅ ∨ truthy (dict_get ctx "path_template") = false →
  emit_response_metrics float_repr ctx s = (Ok tt, s).
Proof. apply emit_noop. Qed.

(** C6.  For every context with a path template but no client id (the key
    is missing, or its value is [None] or otherwise falsy), and every
    metrics dict of the declared shape, the call returns normally, the
    request count series of the request grows by 1, its duration series
    takes the observation (the sum grows by the duration, the count by 1),
    and the per-client metric is left as it was: none of its series is
    updated and none is created.  The context carries a method, an integer
    status code and a numeric duration, that is a float or an integer
    within the range of floats ([as_number]), and its label values have a
    text ([printable]); without these the call raises. *)
Theorem emit_without_client_id (ctx : gmap string value) (s : store)
    (method path_template duration_s : value) (status_code : Z) (amount : Q) :
  well_formed s →
  printable ctx →
  ctx !! "method" = Some method →
  ctx !! "path_template" = Some path_template →
  truthy path_template = true →
  ctx !! "status_code" = Some (VInt status_code) →
  ctx !! "duration_s" = Some duration_s →
  as_number duration_s = Ok amount →
  truthy (dict_get ctx "client_id") = false →
  let family := family_of status_code in
  let rk := [str float_repr method; str float_repr path_template;
             pretty status_code; family] in
  let dk := [str float_repr method; str float_repr path_template; family] in
  ∃ s', emit_response_metrics float_repr ctx s = (Ok tt, s') ∧
    counter_sample s' "requests" rk = (counter_sample s "requests" rk + 1)%Q ∧
    (let h := histogram_sample DURATION_BUCKETS s "requests_duration" dk in
     let h' := histogram_sample DURATION_BUCKETS s' "requests_duration" dk in
     h_sum h' = (h_sum h + amount)%Q ∧
     (count_sample h' == count_sample h + 1)%Q) ∧
    s' !! "api_requests" = s !! "api_requests".
Proof.
  intros Hwf _ Hm Hp Htp Hc Hd Ha Hcid family rk dk.
  pose proof (well_formed_inv _ Hwf)
    as ((v1 & ch1 & H1) & (v2 & ch2 & H2 & Hlen) & (v3 & ch3 & H3)).
  eexists. split.
  { apply (emit_spec float_repr ctx s method duration_s (VInt status_code)
             family amount Hwf); try done.
    - by rewrite (dict_get_Some _ _ _ Hp).
    - apply status_code_family_Ok. }
  rewrite (dict_get_Some _ _ _ Hp). unfold emitted. rewrite Hcid.
  simpl str. fold rk dk.
  set (s1 := inc_series "requests" rk s).
  assert (H2' : s1 !! "requests_duration" = s !! "requests_duration")
    by (by apply inc_series_lookup_ne).
  split; [|split].
  - rewrite (counter_sample_frame s1) by (by rewrite observe_in_lookup_ne).
    by eapply counter_sample_inc.
  - cbv zeta. rewrite H2 in H2'.
    rewrite (histogram_sample_observe _ _ _ _ _ _ _ _ H2').
    rewrite (histogram_sample_frame _ s s1) by (by rewrite H2', H2).
    split; [apply observe_series_sum|].
    apply observe_series_count.
    + unfold DURATION_BUCKETS. repeat constructor.
    + by eapply histogram_sample_length.
  - rewrite observe_in_lookup_ne by done. by apply inc_series_lookup_ne.
Qed.

(** C4, as amended.  The call returns normally whenever the metrics dict is
    empty, or the context's path template is absent, or the metrics dict
    has the declared shape and the context carries a method, an integer
    status code and a numeric duration (a float, or an integer within the
    range of floats), with label values that have a text.  It raises
    [KeyError] to its caller, leaving the metrics as they were, when the
    metrics dict is not empty, the path template is present, and
    - the context lacks [method], [duration_s] or [status_code]: the error
      names the first of them that is missing, in this order; or
    - the context carries the three, the status code being an integer, its
      label values have a text, and the metrics dict lacks the key
      ["requests"]. *)
Theorem emit_returns (ctx : gmap string value) (s : store) :
  (s = ∅ ∨
   truthy (dict_get ctx "path_template") = false ∨
   (well_formed s ∧ printable ctx ∧ is_Some (ctx !! "method") ∧
    (∃ n, ctx !! "status_code" = Some (VInt n)) ∧
    (∃ d a, ctx !! "duration_s" = Some d ∧ as_number d = Ok a)) →
   ∃ s', emit_response_metrics float_repr ctx s = (Ok tt, s')) ∧
  (s ≠ ∅ → truthy (dict_get ctx "path_template") = true →
   (ctx !! "method" = None →
    emit_response_metrics float_repr ctx s = (Raise (KeyError "method"), s)) ∧
   (is_Some (ctx !! "method") → ctx !! "duration_s" = None →
    emit_response_metrics float_repr ctx s
    = (Raise (KeyError "duration_s"), s)) ∧
   (is_Some (ctx !! "method") → is_Some (ctx !! "duration_s") →
    ctx !! "status_code" = None →
    emit_response_metrics float_repr ctx s
    = (Raise (KeyError "status_code"), s)) ∧
   (is_Some (ctx !! "method") → is_Some (ctx !! "duration_s") →
    (∃ n, ctx !! "status_code" = Some (VInt n)) → printable ctx →
    s !! "requests" = None →
    emit_response_metrics float_repr ctx s
    = (Raise (KeyError "requests"), s))).
Proof.
  split.
  - intros [H|[H|(Hwf & _ & [m Hm] & [n Hc] & (d & a & Hd & Ha))]].
    + exists s. apply emit_noop. by left.
    + exists s. apply emit_noop. by right.
    + destruct (truthy (dict_get ctx "path_template")) eqn:Hp.
      * eexists.
        apply (emit_spec float_repr ctx s m d (VInt n) (family_of n) a Hwf);
          try done.
        apply status_code_family_Ok.
      * exists s. apply emit_noop. by right.
  - intros Hs Hp. rewrite (emit_matched float_repr ctx s Hs Hp).
    unfold dict_item. split; [|split; [|split]].
    + intros ->. reflexivity.
    + intros [m ->] ->. reflexivity.
    + intros [m ->] [d ->] ->. reflexivity.
    + intros [m ->] [d ->] [n ->] _ Hr.
      rewrite !bind_lift_Ok.
      pose proof (status_code_family_Ok n) as Hfam.
      unfold status_code_family in Hfam. simpl str. rewrite Hfam, bind_lift_Ok.
      apply bind_Raise. unfold getitem. by rewrite Hr.
Qed.
End EmitProperties.

(** C4 fails as stated: with the metrics in place, a context that matched a
    route but carries no method makes the call raise [KeyError]; so does a
    complete context against a metrics dict without the ["requests"] key. *)
Lemma emit_raises :
  emit_response_metrics example_float_repr partial_context init_metrics
  = (Raise (KeyError "method"), init_metrics) ∧
  (emit_response_metrics example_float_repr api_context other_metrics).1
  = Raise (KeyError "requests").
Proof. split; vm_compute; reflexivity. Qed.

Lemma emit_api_request_witness :
  ∃ s', emit_response_metrics example_float_repr api_context init_metrics = (Ok tt, s') ∧
    counter_sample s' "requests" ["GET"; "/ctms/{id}"; "200"; "2xx"]
    = (counter_sample init_metrics "requests" ["GET"; "/ctms/{id}"; "200"; "2xx"] + 1)%Q ∧
    (let h := histogram_sample DURATION_BUCKETS init_metrics "requests_duration"
                ["GET"; "/ctms/{id}"; "2xx"] in
     let h' := histogram_sample DURATION_BUCKETS s' "requests_duration"
                ["GET"; "/ctms/{id}"; "2xx"] in
     DURATION_BUCKETS !! 1%nat = Some (Bound 0.05) ∧
     (bucket_sample h' 1 == bucket_sample h 1 + 1)%Q ∧
     h_sum h' = (h_sum h + 0.02)%Q) ∧
    counter_sample s' "api_requests" ["GET"; "/ctms/{id}"; "abc"; "2xx"]
    = (counter_sample init_metrics "api_requests" ["GET"; "/ctms/{id}"; "abc"; "2xx"] + 1)%Q.
Proof.
  apply (emit_api_request example_float_repr api_context init_metrics).
  - exact init_metrics_well_formed.
  - reflexivity.
  - reflexivity.
  - reflexivity.
  - reflexivity.
  - reflexivity.
Defined.

Lemma emit_skips_witness :
  emit_response_metrics example_float_repr unmatched_context init_metrics
  = (Ok tt, init_metrics).
Proof.
  apply (emit_skips example_float_repr unmatched_context init_metrics).
  right. reflexivity.
Defined.

(** ** What the loop body of [init_metrics_labels] does *)

Lemma touch_store_grows m key s : store_grows s (touch_store m key s).
Proof.
  unfold touch_store. destruct (s !! m) as [metric|] eqn:E.
  - eapply store_grows_insert; [done|apply ensure_child_grows].
  - apply store_grows_refl.
Qed.

Lemma touch_all_grows m keys s : store_grows s (touch_all m keys s).
Proof.
  revert s. induction keys as [|k keys IH]; intros s; simpl.
  - apply store_grows_refl.
  - eapply store_grows_trans; [apply touch_store_grows|apply IH].
Qed.

Lemma touch_all_app m k1 k2 s :
  touch_all m (k1 ++ k2) s = touch_all m k2 (touch_all m k1 s).
Proof. unfold touch_all. by rewrite foldl_app. Qed.

Lemma labelled_grows s s' m ln : store_grows s s' → labelled s m ln → labelled s' m ln.
Proof.
  intros Hg (metric & Hm & Hln). specialize (Hg m). rewrite Hm in Hg.
  inversion Hg as [? m' Hmm|]; subst. exists m'. split; [done|].
  by rewrite (metric_grows_labelnames _ _ Hmm).
Qed.

Lemma shaped_like_grows proto m m' :
  shaped_like proto m → metric_grows m m' → shaped_like proto m'.
Proof.
  destruct proto as [pl pv pc|pl pu pv pc], m as [ln v ch|ln ub v ch],
    m' as [ln' v' ch'|ln' ub' v' ch']; simpl; try done.
  - by intros -> (-> & _).
  - intros (-> & -> & Hlen) (-> & -> & -> & Hsub & Hnew).
    repeat split. intros k h Hk. destruct (ch !! k) as [h0|] eqn:E.
    + assert (ch' !! k = Some h0) by (by eapply lookup_weaken).
      simplify_eq. eauto.
    + rewrite (Hnew k h E Hk). simpl. by rewrite length_replicate.
Qed.

Lemma well_formed_grows s s' : well_formed s → store_grows s s' → well_formed s'.
Proof.
  unfold well_formed. intros Hwf Hg. eapply Forall_impl; [exact Hwf|].
  intros entry (m & Hm & Hs). specialize (Hg entry.1). rewrite Hm in Hg.
  inversion Hg as [? m' Hmm|]; subst. exists m'. split; [done|].
  by eapply shaped_like_grows.
Qed.

Lemma well_formed_labelled s :
  well_formed s →
  labelled s "requests" REQUESTS_LABELS ∧
  labelled s "requests_duration" DURATION_LABELS ∧
  labelled s "api_requests" API_LABELS.
Proof.
  intros ((v1 & ch1 & H1) & (v2 & ch2 & H2 & _) & (v3 & ch3 & H3))%well_formed_inv.
  repeat split; eexists; (split; [done|done]).
Qed.

Lemma touch_Ok s m ln args :
  labelled s m ln → ln ≠ [] → length args = length ln →
  discard (labels m args []) s = (Ok tt, touch_store m args s).
Proof.
  intros (metric & Hm & <-) Hne Hlen. unfold discard.
  erewrite bind_Ok;
    [|eapply labels_Ok; [exact Hm|by apply label_tuple_positional]].
  unfold touch_store. by rewrite Hm.
Qed.

Lemma for_each_touch_all {A} (m : string) (ln : list string) (l : list A)
    (body : A → M unit) (g : A → list (list string)) (s : store) :
  (∀ x s, labelled s m ln → body x s = (Ok tt, touch_all m (g x) s)) →
  labelled s m ln →
  for_each l body s = (Ok tt, touch_all m (l ≫= g) s).
Proof.
  intros Hbody. revert s. induction l as [|x l IH]; intros s Hs; simpl; [done|].
  erewrite bind_Ok by (by apply Hbody).
  rewrite IH by (eapply labelled_grows; [apply touch_all_grows|done]).
  change (mbind g (x :: l)) with (g x ++ (l ≫= g))%list.
  by rewrite touch_all_app.
Qed.

Lemma mapM_status_code_family codes :
  mapM status_code_family codes = Ok (family_of <$> codes).
Proof.
  induction codes as [|c codes IH]; [done|].
  simpl. rewrite status_code_family_Ok. simpl. by rewrite IH.
Qed.

Lemma init_route_labels_spec openapi client_ids route s status_codes is_api :
  well_formed s →
  route_status_codes openapi (methods route) (path_format route)
  = Ok (status_codes, is_api) →
  init_route_labels openapi client_ids "requests" "requests_duration"
    "api_requests" (ARoute route) s
  = (Ok tt, route_touched (methods route) (path_format route) client_ids
              status_codes is_api s).
Proof.
  intros Hwf Hcodes. unfold init_route_labels, route_touched.
  rewrite Hcodes, bind_lift_Ok, mapM_status_code_family, bind_lift_Ok.
  cbn [fst snd].
  set (s1 := touch_all "requests" _ s).
  set (s2 := touch_all "requests_duration" _ s1).
  assert (Hwf1 : well_formed s1) by (eapply well_formed_grows, touch_all_grows; done).
  assert (Hwf2 : well_formed s2) by (eapply well_formed_grows, touch_all_grows; done).
  apply well_formed_labelled in Hwf as (L1 & _ & _).
  apply well_formed_labelled in Hwf1 as (_ & L2 & _).
  apply well_formed_labelled in Hwf2 as (_ & _ & L3).
  erewrite bind_Ok; cycle 1.
  { apply (for_each_touch_all "requests" REQUESTS_LABELS _ _
             (λ '(method, status_code),
                [[method; path_format route; pretty status_code;
                  family_of status_code]])); [|done].
    intros [method code] t Ht. rewrite status_code_family_Ok, bind_lift_Ok.
    erewrite touch_Ok; [done|exact Ht|done|done]. }
  fold (request_keys (methods route) (path_format route) status_codes). fold s1.
  erewrite bind_Ok; cycle 1.
  { apply (for_each_touch_all "requests_duration" DURATION_LABELS _ _
             (λ '(method, family), [[method; path_format route; family]]));
      [|done].
    intros [method fam] t Ht. erewrite touch_Ok; [done|exact Ht|done|done]. }
  fold (families_of status_codes).
  fold (timing_keys (methods route) (path_format route) status_codes). fold s2.
  destruct is_api; [|done].
  apply (for_each_touch_all "api_requests" API_LABELS _ _
           (λ '(method, family), client_id ← client_ids;
              [[method; path_format route; client_id; family]])); [|done].
  intros [method fam] t Ht.
  apply (for_each_touch_all "api_requests" API_LABELS _ _
           (λ client_id, [[method; path_format route; client_id; fam]])); [|done].
  intros cid u Hu. erewrite touch_Ok; [done|exact Hu|done|done].
Qed.

Lemma touch_store_lookup_ne m key s k : k ≠ m → touch_store m key s !! k = s !! k.
Proof.
  intros Hne. unfold touch_store. destruct (s !! m); [|done].
  by rewrite lookup_insert_ne.
Qed.

Lemma touch_all_lookup_ne m keys s k : k ≠ m → touch_all m keys s !! k = s !! k.
Proof.
  intros Hne. revert s. induction keys as [|key keys IH]; intros s; simpl; [done|].
  rewrite IH. by apply touch_store_lookup_ne.
Qed.

Lemma series_keys_ensure_child metric key :
  series_keys (ensure_child metric key) = series_keys metric ∪ {[key]}.
Proof. destruct metric; simpl; apply dom_touch. Qed.

Lemma series_of_touch_store m key s :
  is_Some (s !! m) → series_of (touch_store m key s) m = series_of s m ∪ {[key]}.
Proof.
  intros [metric Hm]. unfold series_of, touch_store.
  rewrite Hm, lookup_insert_eq. simpl. apply series_keys_ensure_child.
Qed.

Lemma touch_store_is_Some m key s k : is_Some (s !! k) → is_Some (touch_store m key s !! k).
Proof.
  intros H. unfold touch_store. destruct (s !! m) eqn:E; [|done].
  rewrite lookup_insert. case_decide; [by eexists|done].
Qed.

Lemma series_of_touch_all m keys s :
  is_Some (s !! m) →
  series_of (touch_all m keys s) m = series_of s m ∪ list_to_set keys.
Proof.
  revert s. induction keys as [|key keys IH]; intros s Hs; simpl.
  - set_solver.
  - rewrite IH by (by apply touch_store_is_Some).
    rewrite series_of_touch_store by done. set_solver.
Qed.

Lemma series_of_frame s s' name : s' !! name = s !! name → series_of s' name = series_of s name.
Proof. intros H. unfold series_of. by rewrite H. Qed.

Lemma route_touched_series methods path client_ids status_codes is_api s :
  well_formed s →
  let s' := route_touched methods path client_ids status_codes is_api s in
  series_of s' "requests"
  = series_of s "requests" ∪ list_to_set (request_keys methods path status_codes) ∧
  series_of s' "requests_duration"
  = series_of s "requests_duration"
    ∪ list_to_set (timing_keys methods path status_codes) ∧
  series_of s' "api_requests"
  = series_of s "api_requests"
    ∪ (if is_api then list_to_set (api_keys methods path client_ids status_codes)
       else ∅).
Proof.
  intros Hwf. pose proof (well_formed_inv _ Hwf)
    as ((v1 & ch1 & H1) & (v2 & ch2 & H2 & _) & (v3 & ch3 & H3)).
  unfold route_touched.
  set (s1 := touch_all "requests" _ s).
  set (s2 := touch_all "requests_duration" _ s1).
  assert (E2 : s1 !! "requests_duration" = s !! "requests_duration")
    by (by apply touch_all_lookup_ne).
  assert (E3 : s2 !! "api_requests" = s !! "api_requests").
  { unfold s2. rewrite touch_all_lookup_ne by done. by apply touch_all_lookup_ne. }
  assert (R : series_of s2 "requests"
              = series_of s "requests" ∪ list_to_set (request_keys methods path status_codes)).
  { rewrite (series_of_frame s1) by (by apply touch_all_lookup_ne).
    apply series_of_touch_all. by rewrite H1. }
  assert (D : series_of s2 "requests_duration"
              = series_of s "requests_duration"
                ∪ list_to_set (timing_keys methods path status_codes)).
  { unfold s2. rewrite series_of_touch_all by (by rewrite E2, H2).
    by rewrite (series_of_frame s s1). }
  destruct is_api; cbv zeta iota.
  - set (s3 := touch_all "api_requests" _ s2).
    rewrite (series_of_frame s2 s3 "requests") by (by apply touch_all_lookup_ne).
    rewrite (series_of_frame s2 s3 "requests_duration")
      by (by apply touch_all_lookup_ne).
    split; [done|]. split; [done|].
    unfold s3. rewrite series_of_touch_all by (by rewrite E3, H3).
    by rewrite (series_of_frame s s2).
  - split; [done|]. split; [done|].
    rewrite (series_of_frame s s2) by done. set_solver.
Qed.

Lemma route_touched_well_formed methods path client_ids status_codes is_api s :
  well_formed s →
  well_formed (route_touched methods path client_ids status_codes is_api s).
Proof.
  intros Hwf. unfold route_touched.
  destruct is_api; repeat (eapply well_formed_grows; [|apply touch_all_grows]); done.
Qed.

(** Membership in the key lists. *)
Lemma elem_of_list_prod {A B} (l : list A) (k : list B) x y :
  (x, y) ∈ list_prod l k ↔ x ∈ l ∧ y ∈ k.
Proof. rewrite !list_elem_of_In. apply in_prod_iff. Qed.

Lemma elem_of_families_of codes f :
  f ∈ families_of codes ↔ ∃ c, c ∈ codes ∧ f = family_of c.
Proof.
  unfold families_of, sorted_set.
  rewrite merge_sort_Permutation, elem_of_remove_dups, list_elem_of_fmap.
  naive_solver.
Qed.

Lemma elem_of_request_keys methods path codes key :
  key ∈ request_keys methods path codes ↔
  ∃ m c, m ∈ methods ∧ c ∈ codes ∧ key = [m; path; pretty c; family_of c].
Proof.
  unfold request_keys. rewrite list_elem_of_bind. split.
  - intros ([m c] & Hk & [Hm Hc]%elem_of_list_prod).
    apply list_elem_of_singleton in Hk. eauto.
  - intros (m & c & Hm & Hc & ->). exists (m, c).
    split; [by apply list_elem_of_singleton|by apply elem_of_list_prod].
Qed.

Lemma elem_of_timing_keys methods path codes key :
  key ∈ timing_keys methods path codes ↔
  ∃ m c, m ∈ methods ∧ c ∈ codes ∧ key = [m; path; family_of c].
Proof.
  unfold timing_keys. rewrite list_elem_of_bind. split.
  - intros ([m f] & Hk & [Hm (c & Hc & ->)%elem_of_families_of]%elem_of_list_prod).
    apply list_elem_of_singleton in Hk. eauto.
  - intros (m & c & Hm & Hc & ->). exists (m, family_of c).
    split; [by apply list_elem_of_singleton|].
    apply elem_of_list_prod. split; [done|]. apply elem_of_families_of. eauto.
Qed.

Lemma elem_of_api_keys methods path client_ids codes key :
  key ∈ api_keys methods path client_ids codes ↔
  ∃ m c cid, m ∈ methods ∧ c ∈ codes ∧ cid ∈ client_ids ∧
             key = [m; path; cid; family_of c].
Proof.
  unfold api_keys. rewrite list_elem_of_bind. split.
  - intros ([m f] & Hk & [Hm (c & Hc & ->)%elem_of_families_of]%elem_of_list_prod).
    apply list_elem_of_bind in Hk as (cid & Hk & Hcid).
    apply list_elem_of_singleton in Hk. eauto 10.
  - intros (m & c & cid & Hm & Hc & Hcid & ->). exists (m, family_of c). split.
    + apply list_elem_of_bind. exists cid. split; [by apply list_elem_of_singleton|done].
    + apply elem_of_list_prod. split; [done|]. apply elem_of_families_of. eauto.
Qed.

Lemma elem_of_client_ids_or_none ids cid :
  cid ∈ client_ids_or_none ids ↔ cid ∈ ids ∨ (ids = [] ∧ cid = "none").
Proof.
  unfold client_ids_or_none. case_bool_decide as H.
  - subst. rewrite list_elem_of_singleton. split; [by right|].
    intros [?%elem_of_nil|[_ ?]]; done.
  - split; [by left|]. by intros [?|[? _]].
Qed.

(** The scan of a path item. *)
Lemma collect_status_codes_no_match methods path items codes is_api :
  (∀ method_lower ms, (method_lower, ms) ∈ items → upper method_lower ∉ methods) →
  collect_status_codes methods path items codes is_api = Ok (codes, is_api).
Proof.
  revert codes is_api. induction items as [|[ml ms] items IH]; intros codes is_api H;
    simpl; [done|].
  rewrite bool_decide_false by (eapply H; left).
  apply IH. intros ml' ms' Hin. apply (H ml' ms'). by right.
Qed.

Lemma collect_status_codes_is_api methods path items codes0 api0 codes is_api :
  collect_status_codes methods path items codes0 api0 = Ok (codes, is_api) →
  is_api = true ↔
  api0 = true ∨
  ((∃ method_lower ms, (method_lower, ms) ∈ items ∧
      upper method_lower ∈ methods ∧ security ms = true) ∧
   endswith path "from_pubsub" = false).
Proof.
  revert codes0 api0. induction items as [|[ml ms] items IH]; intros codes0 api0; simpl.
  - intros [= <- <-]. split; [by left|].
    intros [?|[(? & ? & ?%elem_of_nil & _) _]]; done.
  - case_bool_decide as Hm.
    + destruct (response_codes ms) as [cs|e]; simpl; [|done].
      intros H%IH. rewrite H. clear H IH. split.
      * intros [[->|[Hs He]%andb_prop]%orb_prop|[(ml' & ms' & Hin & Hu & Hs) He]].
        -- by left.
        -- right. apply negb_true_iff in He. split; [|done].
           exists ml, ms. split; [left|done].
        -- right. split; [|done]. exists ml', ms'. split; [by right|done].
      * intros [->|[(ml' & ms' & Hin & Hu & Hs) He]]; [by left|].
        apply elem_of_cons in Hin as [[= -> ->]|Hin].
        -- left. rewrite Hs, He. by destruct api0.
        -- right. split; [|done]. exists ml', ms'. done.
    + intros H%IH. rewrite H. clear H IH. split.
      * intros [->|[(ml' & ms' & Hin & Hu & Hs) He]]; [by left|].
        right. split; [|done]. exists ml', ms'. split; [by right|done].
      * intros [->|[(ml' & ms' & Hin & Hu & Hs) He]]; [by left|].
        apply elem_of_cons in Hin as [[= -> ->]|Hin]; [done|].
        right. split; [|done]. exists ml', ms'. done.
Qed.

Lemma route_status_codes_is_api openapi route codes is_api :
  route_status_codes openapi (methods route) (path_format route) = Ok (codes, is_api) →
  is_api = true ↔
  requires_auth openapi route ∧ endswith (path_format route) "from_pubsub" = false.
Proof.
  unfold route_status_codes, requires_auth.
  destruct (paths openapi !! path_format route) as [[|item items]|] eqn:Hp.
  - intros H. assert (is_api = false) as -> by (destruct (String.eqb _ _); by simplify_eq).
    split; [done|]. intros [(its & ml & ms & [= <-] & ?%elem_of_nil & _) _]. done.
  - intros H%collect_status_codes_is_api. rewrite H. split.
    + intros [?|[(ml & ms & Hin & Hu & Hs) He]]; [done|]. split; [|done]. eauto 10.
    + intros [(its & ml & ms & [= <-] & Hin & Hu & Hs) He]. right. eauto 10.
  - intros H. assert (is_api = false) as -> by (destruct (String.eqb _ _); by simplify_eq).
    split; [done|]. intros [(its & ml & ms & [=] & _) _].
Qed.

(** ** Properties of [init_metrics_labels] *)

Lemma init_metrics_labels_loop ids app s :
  well_formed s →
  init_metrics_labels ids app s
  = for_each (routes app)
      (init_route_labels (openapi app) (client_ids_or_none ids)
         "requests" "requests_duration" "api_requests") s.
Proof.
  intros ((v1 & ch1 & H1) & (v2 & ch2 & H2 & _) & (v3 & ch3 & H3))%well_formed_inv.
  unfold init_metrics_labels.
  erewrite bind_Ok by (by eapply getitem_Some).
  erewrite bind_Ok by (by eapply getitem_Some).
  erewrite bind_Ok by (by eapply getitem_Some).
  done.
Qed.

Lemma all_at_zero_grows s s' : store_grows s s' → all_at_zero s → all_at_zero s'.
Proof.
  intros Hg Hz name m' Hm'. specialize (Hg name). rewrite Hm' in Hg.
  inversion Hg as [m ? Hmm Hm|]; subst. symmetry in Hm. specialize (Hz name m Hm).
  destruct m as [ln v ch|ln ub v ch], m' as [ln' v' ch'|ln' ub' v' ch'];
    simpl in *; try done.
  - destruct Hmm as (-> & -> & Hsub & Hnew). intros k x Hk.
    destruct (ch !! k) as [y|] eqn:E; [|eauto].
    assert (ch' !! k = Some y) by (by eapply lookup_weaken). simplify_eq. eauto.
  - destruct Hmm as (-> & -> & -> & Hsub & Hnew). intros k x Hk.
    destruct (ch !! k) as [y|] eqn:E; [|eauto].
    assert (ch' !! k = Some y) by (by eapply lookup_weaken). simplify_eq. eauto.
Qed.

(** C2.  Running [init_metrics_labels] a second time with the same
    arguments, on the metric objects the first run left, ends the same way
    and changes nothing: the stores after one and after two runs are equal,
    and so are the sets of series present.  What the runs add to the store
    they started from is series at zero only: every series that was there
    keeps its state, and when all were at zero, all are at zero after two
    runs. *)
Theorem init_metrics_labels_idempotent ids app (s s1 s2 : store) r1 r2 :
  init_metrics_labels ids app s = (r1, s1) →
  init_metrics_labels ids app s1 = (r2, s2) →
  r2 = r1 ∧ s2 = s1 ∧ all_series s2 = all_series s1 ∧
  store_grows s s2 ∧ (all_at_zero s → all_at_zero s2).
Proof.
  intros E1 E2.
  destruct (settles_init_metrics_labels ids app s r1 s1 E1) as [Hg Hre].
  rewrite (Hre s1 (store_grows_refl s1)) in E2. simplify_eq.
  repeat split; [done|]. by apply all_at_zero_grows.
Qed.

Lemma for_each_routes openapi client_ids rs s :
  well_formed s →
  Forall (route_accepted openapi) rs →
  ∃ s', for_each rs (init_route_labels openapi client_ids
                        "requests" "requests_duration" "api_requests") s
        = (Ok tt, s') ∧
        well_formed s' ∧
        series_of s' "api_requests"
        = series_of s "api_requests" ∪ ⋃ (api_series openapi client_ids <$> rs).
Proof.
  intros Hwf Hrs. revert s Hwf.
  induction Hrs as [|r rs Hr Hrs IH]; intros s Hwf; simpl.
  - exists s. repeat split; [done|]. set_solver.
  - destruct r as [route|]; [|done]. destruct Hr as (codes & is_api & Hcodes).
    pose proof (init_route_labels_spec openapi client_ids route s codes is_api Hwf Hcodes) as E.
    pose proof (route_touched_well_formed (methods route) (path_format route)
                  client_ids codes is_api s Hwf) as Hwf1.
    destruct (IH _ Hwf1) as (s' & E' & Hwf' & Hs').
    exists s'. split; [by erewrite bind_Ok|]. split; [done|].
    rewrite Hs'.
    destruct (route_touched_series (methods route) (path_format route)
                client_ids codes is_api s Hwf) as (_ & _ & ->).
    unfold api_series at 2. rewrite Hcodes.
    change (list_fmap _ _ ?f ?l) with (f <$> l).
    destruct is_api; set_solver.
Qed.

(** C7.  A route is an API route exactly when the OpenAPI document gives one
    of the route's methods a ["security"] entry and the path does not end in
    ["from_pubsub"].  When every entry of [app.routes] is a route whose
    response codes read as integers, [init_metrics_labels] returns normally,
    and the per-client series present afterwards are those present before
    and, for every API route, one for each method of the route, each family
    of its status codes and each client id -- the active client ids, or the
    single placeholder ["none"] when there is none. *)
Theorem api_route_series ids app (s : store) :
  well_formed s →
  Forall (route_accepted (openapi app)) (routes app) →
  (∀ route status_codes is_api,
     route_status_codes (openapi app) (methods route) (path_format route)
     = Ok (status_codes, is_api) →
     is_api = true ↔
     requires_auth (openapi app) route ∧
     endswith (path_format route) "from_pubsub" = false) ∧
  ∃ s', init_metrics_labels ids app s = (Ok tt, s') ∧
    ∀ key, key ∈ series_of s' "api_requests" ↔
      key ∈ series_of s "api_requests" ∨
      ∃ route status_codes method status_code client_id,
        ARoute route ∈ routes app ∧
        route_status_codes (openapi app) (methods route) (path_format route)
        = Ok (status_codes, true) ∧
        method ∈ methods route ∧
        status_code ∈ status_codes ∧
        (client_id ∈ ids ∨ (ids = [] ∧ client_id = "none")) ∧
        key = [method; path_format route; client_id; family_of status_code].
Proof.
  intros Hwf Hrs. split.
  { intros route codes is_api. apply route_status_codes_is_api. }
  destruct (for_each_routes (openapi app) (client_ids_or_none ids) (routes app) s Hwf Hrs)
    as (s' & E & _ & Hs').
  exists s'. split; [by rewrite init_metrics_labels_loop|].
  intros key. rewrite Hs', elem_of_union, elem_of_union_list.
  apply or_iff_compat_l. split.
  - intros (X & (r & -> & Hr)%list_elem_of_fmap & Hkey).
    destruct r as [route|]; simpl in Hkey; [|set_solver].
    destruct (route_status_codes _ _ _) as [[codes [|]]|e] eqn:Hc; try set_solver.
    apply elem_of_list_to_set, elem_of_api_keys in Hkey
      as (m & c & cid & Hm & Hcc & Hcid%elem_of_client_ids_or_none & ->).
    exists route, codes, m, c, cid. done.
  - intros (route & codes & m & c & cid & Hr & Hc & Hm & Hcc & Hcid & ->).
    exists (api_series (openapi app) (client_ids_or_none ids) (ARoute route)).
    split; [apply list_elem_of_fmap; eauto|].
    simpl. rewrite Hc. apply elem_of_list_to_set, elem_of_api_keys.
    exists m, c, cid. repeat split; try done. by apply elem_of_client_ids_or_none.
Qed.

Lemma list_prod_nil_r {A B} (l : list A) : list_prod l (@nil B) = [].
Proof. by induction l. Qed.




(** C10, as amended.  For a route whose path has a non-empty item in the
    OpenAPI document, none of whose entries is for a method of the route,
    the collected status codes are empty and the route is not an API route;
    the loop body returns normally and leaves every metric object as it
    was, so that no request count, duration or per-client series is created
    for the route. *)
Theorem route_without_matching_method openapi client_ids rm tm am route
    item items (s : store) :
  paths openapi !! path_format route = Some (item :: items) →
  (∀ method_lower ms,
     (method_lower, ms) ∈ item :: items → upper method_lower ∉ methods route) →
  route_status_codes openapi (methods route) (path_format route) = Ok ([], false) ∧
  init_route_labels openapi client_ids rm tm am (ARoute route) s = (Ok tt, s).
Proof.
  intros Hp Hno.
  assert (Hcodes : route_status_codes openapi (methods route) (path_format route)
                   = Ok ([], false)).
  { unfold route_status_codes. rewrite Hp.
    by apply collect_status_codes_no_match. }
  split; [done|]. unfold init_route_labels.
  rewrite Hcodes, bind_lift_Ok. cbn [fst snd mapM]. rewrite bind_lift_Ok.
  change (sorted_set []) with (@nil string).
  by rewrite !list_prod_nil_r.
Qed.

(** C10 fails as stated: when the path is in the OpenAPI document with an
    empty item -- so that none of its declared methods matches the route's
    -- the item is falsy, the route is handled like one missing from the
    document and gets the series of the status code 200. *)
Lemma empty_path_item_falls_back :
  paths empty_item_openapi !! path_format ctms_route = Some [] ∧
  (∀ method_lower ms,
     (method_lower, ms) ∈ @nil (string * mspec) → upper method_lower ∉ methods ctms_route) ∧
  route_status_codes empty_item_openapi (methods ctms_route) (path_format ctms_route)
  = Ok ([200], false) ∧
  ∃ s', init_metrics_labels [] empty_item_app init_metrics = (Ok tt, s') ∧
        series_of s' "requests" = {[ ["GET"; "/ctms/{id}"; "200"; "2xx"] ]} ∧
        series_of s' "requests_duration" = {[ ["GET"; "/ctms/{id}"; "2xx"] ]}.
Proof.
  split; [reflexivity|]. split; [by intros ml ms ?%elem_of_nil|].
  split; [reflexivity|]. eexists. split; [vm_compute; reflexivity|].
  split; vm_compute; reflexivity.
Qed.

(** ** The properties on the examples *)

Lemma init_metrics_labels_idempotent_witness :
  let run := init_metrics_labels ["test_client"] example_app in
  (run (run init_metrics).2).1 = (run init_metrics).1 ∧
  (run (run init_metrics).2).2 = (run init_metrics).2 ∧
  all_at_zero (run (run init_metrics).2).2.
Proof.
  intros run.
  destruct (init_metrics_labels_idempotent ["test_client"] example_app
              init_metrics (run init_metrics).2 (run (run init_metrics).2).2
              (run init_metrics).1 (run (run init_metrics).2).1)
    as (E1 & E2 & _ & _ & Z).
  - vm_compute. reflexivity.
  - vm_compute. reflexivity.
  - split; [exact E1|]. split; [exact E2|]. apply Z, init_metrics_at_zero.
Defined.

Lemma api_context_printable : printable api_context.
Proof.
  repeat (apply Forall_cons_2; [vm_compute; reflexivity|]). apply Forall_nil_2.
Qed.

Lemma anonymous_context_printable : printable anonymous_context.
Proof.
  repeat (apply Forall_cons_2; [vm_compute; reflexivity|]). apply Forall_nil_2.
Qed.

Lemma emit_returns_witness :
  (∃ s', emit_response_metrics example_float_repr api_context init_metrics
         = (Ok tt, s')) ∧
  emit_response_metrics example_float_repr partial_context init_metrics
  = (Raise (KeyError "method"), init_metrics) ∧
  emit_response_metrics example_float_repr api_context other_metrics
  = (Raise (KeyError "requests"), other_metrics).
Proof.
  split; [|split].
  - apply (proj1 (emit_returns example_float_repr api_context init_metrics)).
    right. right. split; [exact init_metrics_well_formed|].
    split; [exact api_context_printable|].
    split; [exists (VStr "GET"); reflexivity|].
    split; [exists 200; reflexivity|].
    exists (VFloat 0.02), 0.02%Q. split; reflexivity.
  - apply (proj2 (emit_returns example_float_repr partial_context init_metrics)).
    + apply (store_nonempty _ "requests" (Counter REQUESTS_LABELS 0%Q ∅)).
      reflexivity.
    + reflexivity.
    + reflexivity.
  - apply (proj2 (emit_returns example_float_repr api_context other_metrics)).
    + apply (store_nonempty _ "pending_acoustic_sync" (Counter [] 0%Q ∅)).
      reflexivity.
    + reflexivity.
    + exists (VStr "GET"). reflexivity.
    + exists (VFloat 0.02). reflexivity.
    + exists 200. reflexivity.
    + exact api_context_printable.
    + reflexivity.
Defined.

Lemma emit_without_client_id_witness :
  ∃ s', emit_response_metrics example_float_repr anonymous_context init_metrics
        = (Ok tt, s') ∧
    counter_sample s' "requests" ["GET"; "/ctms/{id}"; "200"; "2xx"]
    = (counter_sample init_metrics "requests" ["GET"; "/ctms/{id}"; "200"; "2xx"] + 1)%Q ∧
    s' !! "api_requests" = init_metrics !! "api_requests".
Proof.
  destruct (emit_without_client_id example_float_repr anonymous_context
              init_metrics (VStr "GET") (VStr "/ctms/{id}") (VFloat 0.02) 200
              0.02%Q init_metrics_well_formed anonymous_context_printable
              eq_refl eq_refl eq_refl eq_refl
              eq_refl eq_refl eq_refl) as (s' & E & Hr & _ & Ha).
  exists s'. split; [exact E|]. split; [exact Hr|exact Ha].
Defined.

Lemma example_app_accepted :
  Forall (route_accepted (openapi example_app)) (routes example_app).
Proof.
  repeat apply Forall_cons_2; try apply Forall_nil_2;
    simpl; eexists; eexists; vm_compute; reflexivity.
Qed.

Lemma api_route_series_witness :
  ∃ s', init_metrics_labels [] example_app init_metrics = (Ok tt, s') ∧
        ["GET"; "/ctms/{id}"; "none"; "4xx"] ∈ series_of s' "api_requests".
Proof.
  destruct (api_route_series [] example_app init_metrics
              init_metrics_well_formed example_app_accepted)
    as [_ (s' & E & H)].
  exists s'. split; [exact E|]. apply H. right.
  exists ctms_route, [200; 401; 404; 422], "GET", 404, "none".
  split; [vm_compute; repeat constructor|].
  split; [vm_compute; reflexivity|].
  split; [repeat constructor|].
  split; [repeat constructor|].
  split; [right; split; reflexivity|].
  vm_compute. reflexivity.
Defined.


Lemma route_without_matching_method_witness :
  route_status_codes put_only_openapi (methods ctms_route) (path_format ctms_route)
  = Ok ([], false) ∧
  init_route_labels put_only_openapi ["none"] "requests" "requests_duration"
    "api_requests" (ARoute ctms_route) init_metrics = (Ok tt, init_metrics).
Proof.
  apply (route_without_matching_method put_only_openapi ["none"] "requests"
           "requests_duration" "api_requests" ctms_route
           ("put", MSpec (Some ["200"; "422"]) true) [] init_metrics).
  - vm_compute. reflexivity.
  - intros ml ms Hin. apply list_elem_of_singleton in Hin.
    injection Hin as -> ->. vm_compute. intros H.
    apply list_elem_of_singleton in H. discriminate H.
Defined.

(** * Further properties *)

(** ** Errors of [emit_response_metrics] *)

Section EmitErrors.
Variable float_repr : Q → string.

(** X1. [emit_response_metrics] with a metrics dict that is not empty and a
    context whose path template is truthy reads [method], [duration_s] and
    [status_code] from the context by subscript, in this order: the first
    of them that is missing raises [KeyError] with its name, and a status
    code whose text is empty raises [IndexError] at [str(status_code)[0]].
    In each case the exception leaves before any metric is used, so the
    metrics are as they were. *)
Theorem emit_missing_field (ctx : gmap string value) (s : store) :
  s ≠ ∅ →
  truthy (dict_get ctx "path_template") = true →
  (ctx !! "method" = None →
   emit_response_metrics float_repr ctx s = (Raise (KeyError "method"), s)) ∧
  (is_Some (ctx !! "method") → ctx !! "duration_s" = None →
   emit_response_metrics float_repr ctx s = (Raise (KeyError "duration_s"), s)) ∧
  (is_Some (ctx !! "method") → is_Some (ctx !! "duration_s") →
   ctx !! "status_code" = None →
   emit_response_metrics float_repr ctx s = (Raise (KeyError "status_code"), s)) ∧
  (is_Some (ctx !! "method") → is_Some (ctx !! "duration_s") →
   ∀ status_code, ctx !! "status_code" = Some status_code →
   str float_repr status_code = "" →
   emit_response_metrics float_repr ctx s = (Raise IndexError, s)).
Proof.
  intros Hs Hp. rewrite (emit_matched float_repr ctx s Hs Hp). unfold dict_item.
  split; [|split; [|split]].
  - intros ->. reflexivity.
  - intros [m ->] ->. reflexivity.
  - intros [m ->] [d ->] ->. reflexivity.
  - intros [m ->] [d ->] c -> Hc. rewrite !bind_lift_Ok, Hc. reflexivity.
Qed.

(** X2. [emit_response_metrics] looks its three metrics up by subscript,
    one after the other, and a missing one raises [KeyError] only when its
    turn comes.  For a context with all its fields: without ["requests"]
    nothing has changed; without ["requests_duration"] the request count
    has already been incremented; without ["api_requests"], and with a
    truthy client id, the request count has been incremented and the
    duration observed. *)
Theorem emit_missing_metric (ctx : gmap string value) (s : store)
    (method duration_s status_code : value) (family : string) (amount : Q) :
  printable ctx →
  truthy (dict_get ctx "path_template") = true →
  ctx !! "method" = Some method →
  ctx !! "duration_s" = Some duration_s →
  ctx !! "status_code" = Some status_code →
  first_char_xx (str float_repr status_code) = Ok family →
  as_number duration_s = Ok amount →
  let path_template := dict_get ctx "path_template" in
  let rk := [str float_repr method; str float_repr path_template;
             str float_repr status_code; family] in
  let dk := [str float_repr method; str float_repr path_template; family] in
  (s ≠ ∅ → s !! "requests" = None →
   emit_response_metrics float_repr ctx s = (Raise (KeyError "requests"), s)) ∧
  (∀ v ch, s !! "requests" = Some (Counter REQUESTS_LABELS v ch) →
   s !! "requests_duration" = None →
   emit_response_metrics float_repr ctx s
   = (Raise (KeyError "requests_duration"), inc_series "requests" rk s)) ∧
  (∀ v ch v' ch',
   s !! "requests" = Some (Counter REQUESTS_LABELS v ch) →
   s !! "requests_duration"
   = Some (Histogram DURATION_LABELS DURATION_BUCKETS v' ch') →
   (∀ k h, ch' !! k = Some h → length (h_buckets h) = length DURATION_BUCKETS) →
   truthy (dict_get ctx "client_id") = true →
   s !! "api_requests" = None →
   emit_response_metrics float_repr ctx s
   = (Raise (KeyError "api_requests"),
      observe_in "requests_duration" dk amount (inc_series "requests" rk s))).
Proof.
  intros _ Hp Hm Hd Hc Hfam Ha path_template rk dk.
  split; [|split].
  - intros Hs H1. rewrite (emit_matched float_repr ctx s Hs Hp). unfold dict_item.
    rewrite Hm, bind_lift_Ok, Hd, bind_lift_Ok, Hc, bind_lift_Ok, Hfam, bind_lift_Ok.
    apply bind_Raise. unfold getitem. by rewrite H1.
  - intros v ch H1 H2.
    rewrite (emit_matched float_repr ctx s (store_nonempty _ _ _ H1) Hp). unfold dict_item.
    rewrite Hm, bind_lift_Ok, Hd, bind_lift_Ok, Hc, bind_lift_Ok, Hfam, bind_lift_Ok.
    erewrite bind_Ok by (by eapply getitem_Some).
    rewrite (labels_inc_then _ _ _ _ _ _ _ _ H1 (label_tuple_requests_kw _ _ _ _)).
    apply bind_Raise. unfold getitem.
    by rewrite inc_series_lookup_ne, H2.
  - intros v ch v' ch' H1 H2 Hlen Hcid H3.
    rewrite (emit_matched float_repr ctx s (store_nonempty _ _ _ H1) Hp). unfold dict_item.
    rewrite Hm, bind_lift_Ok, Hd, bind_lift_Ok, Hc, bind_lift_Ok, Hfam, bind_lift_Ok.
    erewrite bind_Ok by (by eapply getitem_Some).
    rewrite (labels_inc_then _ _ _ _ _ _ _ _ H1 (label_tuple_requests_kw _ _ _ _)).
    assert (H2' : inc_series "requests" rk s !! "requests_duration"
                  = Some (Histogram DURATION_LABELS DURATION_BUCKETS v' ch'))
      by (by rewrite inc_series_lookup_ne).
    erewrite bind_Ok by (by eapply getitem_Some).
    rewrite (labels_observe_then _ _ _ _ _ _ _ _ _ _ _ H2' Hlen
               (label_tuple_duration_kw _ _ _) Ha).
    rewrite Hcid. apply bind_Raise. unfold getitem.
    by rewrite observe_in_lookup_ne, inc_series_lookup_ne, H3.
Qed.

(** An observation that cannot be added to the sum: the exception leaves
    after the request count and the creation of the duration series. *)
Lemma emit_observe_raises (ctx : gmap string value) (s : store)
    (method duration_s status_code : value) (family : string) (e : exn) :
  well_formed s →
  truthy (dict_get ctx "path_template") = true →
  ctx !! "method" = Some method →
  ctx !! "duration_s" = Some duration_s →
  ctx !! "status_code" = Some status_code →
  first_char_xx (str float_repr status_code) = Ok family →
  as_number duration_s = Raise e →
  let path_template := dict_get ctx "path_template" in
  let rk := [str float_repr method; str float_repr path_template;
             str float_repr status_code; family] in
  let dk := [str float_repr method; str float_repr path_template; family] in
  emit_response_metrics float_repr ctx s
  = (Raise e,
     touch_store "requests_duration" dk (inc_series "requests" rk s)).
Proof.
  intros Hwf Hp Hm Hd Hc Hfam Hnum path_template rk dk.
  pose proof (well_formed_inv _ Hwf)
    as ((v1 & ch1 & H1) & (v2 & ch2 & H2 & Hlen) & _).
  rewrite (emit_matched float_repr ctx s (store_nonempty _ _ _ H1) Hp). unfold dict_item.
  rewrite Hm, bind_lift_Ok, Hd, bind_lift_Ok, Hc, bind_lift_Ok, Hfam, bind_lift_Ok.
  erewrite bind_Ok by (by eapply getitem_Some).
  rewrite (labels_inc_then _ _ _ _ _ _ _ _ H1 (label_tuple_requests_kw _ _ _ _)).
  assert (H2' : inc_series "requests" rk s !! "requests_duration"
                = Some (Histogram DURATION_LABELS DURATION_BUCKETS v2 ch2))
    by (by rewrite inc_series_lookup_ne).
  erewrite bind_Ok by (by eapply getitem_Some).
  erewrite bind_Ok
    by (eapply labels_Ok; [exact H2'|apply label_tuple_duration_kw]).
  apply bind_Raise. unfold observe. cbn [child_of child_key].
  rewrite lookup_insert_eq. cbn [ensure_child]. rewrite touch_lookup.
  unfold touch_store. rewrite H2'. cbn [ensure_child].
  by rewrite Hnum.
Qed.

(** X3. A duration that is [None] or a string makes
    [emit_response_metrics] raise [TypeError] from [observe], after the
    request count has been incremented and the duration series has been
    created by [labels]: the exception leaves the metrics partly
    updated, and the per-client count is not reached. *)
Theorem emit_duration_not_a_number (ctx : gmap string value) (s : store)
    (method duration_s status_code : value) (family : string) :
  well_formed s →
  printable ctx →
  truthy (dict_get ctx "path_template") = true →
  ctx !! "method" = Some method →
  ctx !! "duration_s" = Some duration_s →
  ctx !! "status_code" = Some status_code →
  first_char_xx (str float_repr status_code) = Ok family →
  (duration_s = VNone ∨ ∃ text, duration_s = VStr text) →
  let path_template := dict_get ctx "path_template" in
  let rk := [str float_repr method; str float_repr path_template;
             str float_repr status_code; family] in
  let dk := [str float_repr method; str float_repr path_template; family] in
  emit_response_metrics float_repr ctx s
  = (Raise TypeError,
     touch_store "requests_duration" dk (inc_series "requests" rk s)).
Proof.
  intros Hwf _ Hp Hm Hd Hc Hfam Hnum.
  apply (emit_observe_raises ctx s method duration_s status_code family
           TypeError Hwf Hp Hm Hd Hc Hfam).
  by destruct Hnum as [->|[text ->]].
Qed.

(** X21. A duration that is an integer beyond the range of floats, of
    magnitude [2^1024 - 2^970] or more, makes [emit_response_metrics]
    raise [OverflowError] from [observe], where the integer is added to the
    float sum: the request count has been incremented and the duration
    series created, and the per-client count is not reached. *)
Theorem emit_duration_overflow (ctx : gmap string value) (s : store)
    (method status_code : value) (family : string) (n : Z) :
  well_formed s →
  printable ctx →
  truthy (dict_get ctx "path_template") = true →
  ctx !! "method" = Some method →
  ctx !! "duration_s" = Some (VInt n) →
  ctx !! "status_code" = Some status_code →
  first_char_xx (str float_repr status_code) = Ok family →
  2 ^ 1024 - 2 ^ 970 ≤ Z.abs n →
  let path_template := dict_get ctx "path_template" in
  let rk := [str float_repr method; str float_repr path_template;
             str float_repr status_code; family] in
  let dk := [str float_repr method; str float_repr path_template; family] in
  emit_response_metrics float_repr ctx s
  = (Raise OverflowError,
     touch_store "requests_duration" dk (inc_series "requests" rk s)).
Proof.
  intros Hwf _ Hp Hm Hd Hc Hfam Hn.
  apply (emit_observe_raises ctx s method (VInt n) status_code family
           OverflowError Hwf Hp Hm Hd Hc Hfam).
  unfold as_number, converts_to_float.
  by rewrite (proj2 (Z.ltb_ge _ _) Hn).
Qed.
End EmitErrors.

(** ** What every call of [emit_response_metrics] preserves *)

Section Effects.
Context (R : relation store) `{!PreOrder R}.

Lemma effect_apply {A} (c : M A) s r s' : effect R c → c s = (r, s') → R s s'.
Proof. intros E H. by eapply E. Qed.

Lemma effect_ret {A} (a : A) : effect R (mret a).
Proof. by intros s r s' [= <- <-]. Qed.

Lemma effect_lift {A} (x : result A) : effect R (lift x).
Proof. by intros s r s' [= <- <-]. Qed.

Lemma effect_getitem key : effect R (getitem key).
Proof. by intros s r s' [= <- <-]. Qed.

Lemma effect_bind {A B} (c : M A) (f : A → M B) :
  effect R c → (∀ a, returns c a → effect R (f a)) → effect R (c ≫= f).
Proof.
  intros Hc Hf s r s' H.
  apply bind_inv in H as [(a & s1 & H1 & H2)|(e & H1 & ->)].
  - trans s1; [by eapply Hc|]. eapply Hf; [|done]. by exists s, s1.
  - by eapply Hc.
Qed.

Lemma effect_for_each {A} (l : list A) (body : A → M unit) :
  (∀ x, effect R (body x)) → effect R (for_each l body).
Proof.
  intros Hb. induction l as [|x l IH]; simpl.
  - apply effect_ret.
  - apply effect_bind; [apply Hb|done].
Qed.
End Effects.

Lemma returns_getitem key a : returns (getitem key) a → a = key.
Proof.
  intros (s & s' & H). unfold getitem in H. by destruct (s !! key); simplify_eq.
Qed.

Lemma returns_labels m args kw c : returns (labels m args kw) c → child_of c = m.
Proof.
  intros (s & s' & H). unfold labels in H.
  destruct (s !! m); [|by simplify_eq].
  destruct (label_tuple _ _ _); by simplify_eq.
Qed.

(** The two relations are preorders. *)
#[local] Instance changes_within_preorder L : PreOrder (changes_within L).
Proof.
  split.
  - intros s. by repeat split.
  - intros s1 s2 s3 (D1 & S1 & F1) (D2 & S2 & F2). repeat split.
    + by rewrite D2.
    + intros name. by trans (series_of s2 name).
    + intros name Hn. by rewrite F2, F1.
Qed.

#[local] Instance keeps_shape_preorder : PreOrder keeps_shape.
Proof. split; unfold keeps_shape; [intros s; done|intros s1 s2 s3; tauto]. Qed.

Lemma changes_within_weaken L L' s s' :
  L ⊆ L' → changes_within L s s' → changes_within L' s s'.
Proof.
  intros HL (D & S & F). repeat split; [done..|].
  intros name Hn. apply F. set_solver.
Qed.

(** Replacing one metric object by a later state of it. *)
Lemma changes_within_insert (s : store) m metric metric' :
  s !! m = Some metric →
  series_keys metric ⊆ series_keys metric' →
  changes_within [m] s (<[m := metric']> s).
Proof.
  intros Hm Hsub. repeat split.
  - apply dom_insert_lookup_L. by eexists.
  - intros name. unfold series_of. rewrite lookup_insert. case_decide; subst.
    + by rewrite Hm.
    + done.
  - intros name Hn. apply lookup_insert_ne. set_solver.
Qed.

Lemma keeps_shape_insert (s : store) m metric metric' :
  s !! m = Some metric →
  (∀ proto, shaped_like proto metric → shaped_like proto metric') →
  keeps_shape s (<[m := metric']> s).
Proof.
  unfold keeps_shape, well_formed. intros Hm Hsh Hwf.
  eapply Forall_impl; [exact Hwf|]. intros entry (m0 & H0 & S0).
  rewrite lookup_insert. case_decide; subst.
  - rewrite Hm in H0. simplify_eq. eauto.
  - eauto.
Qed.

Lemma series_keys_touch (metric : metric) key :
  series_keys metric ⊆ series_keys (ensure_child metric key).
Proof. rewrite series_keys_ensure_child. set_solver. Qed.

Lemma shaped_like_ensure_child proto metric key :
  shaped_like proto metric → shaped_like proto (ensure_child metric key).
Proof. intros H. eapply shaped_like_grows; [done|apply ensure_child_grows]. Qed.

Lemma shaped_like_observe proto ln ub v ch key h r h' a :
  ch !! key = Some h →
  observe_series ub a h = (r, h') →
  shaped_like proto (Histogram ln ub v ch) →
  shaped_like proto (Histogram ln ub v (<[key := h']> ch)).
Proof.
  intros Hk Hobs. destruct proto as [|pl pu pv pc]; simpl; [done|].
  intros (-> & -> & Hlen). repeat split. intros k x.
  rewrite lookup_insert. case_decide; [|by apply Hlen]. intros [= <-].
  rewrite <- (Hlen key h Hk). unfold observe_series in Hobs.
  destruct (bucket_index a pu); [|by simplify_eq].
  destruct (h_buckets h !! n); simplify_eq; simpl; [|done].
  by rewrite length_insert.
Qed.

(** The primitives. *)
Lemma labels_changes m args kw : effect (changes_within [m]) (labels m args kw).
Proof.
  intros s r s'. unfold labels. destruct (s !! m) as [metric|] eqn:Hm.
  - destruct (label_tuple _ _ _); intros [= <- <-]; [|reflexivity].
    eapply changes_within_insert; [done|apply series_keys_touch].
  - intros [= <- <-]. reflexivity.
Qed.

Lemma labels_keeps_shape m args kw : effect keeps_shape (labels m args kw).
Proof.
  intros s r s'. unfold labels. destruct (s !! m) as [metric|] eqn:Hm.
  - destruct (label_tuple _ _ _); intros [= <- <-]; [|reflexivity].
    eapply keeps_shape_insert; [done|]. intros proto. apply shaped_like_ensure_child.
  - intros [= <- <-]. reflexivity.
Qed.

Lemma inc_changes c : effect (changes_within [child_of c]) (inc c).
Proof.
  intros s r s'. unfold inc.
  destruct (s !! child_of c) as [[ln v ch|]|] eqn:Hm; try (intros [= <- <-]; reflexivity).
  destruct (ch !! child_key c) eqn:Hk; intros [= <- <-]; [|reflexivity].
  eapply changes_within_insert; [done|]. simpl. rewrite dom_insert_L. set_solver.
Qed.

Lemma inc_keeps_shape c : effect keeps_shape (inc c).
Proof.
  intros s r s'. unfold inc.
  destruct (s !! child_of c) as [[ln v ch|]|] eqn:Hm; try (intros [= <- <-]; reflexivity).
  destruct (ch !! child_key c) eqn:Hk; intros [= <- <-]; [|reflexivity].
  eapply keeps_shape_insert; [done|]. by intros [].
Qed.

Lemma observe_changes c amount :
  effect (changes_within [child_of c]) (observe c amount).
Proof.
  intros s r s'. unfold observe.
  destruct (s !! child_of c) as [[|ln ub v ch]|] eqn:Hm; try (intros [= <- <-]; reflexivity).
  destruct (ch !! child_key c) eqn:Hk; [|intros [= <- <-]; reflexivity].
  destruct (as_number amount); [|intros [= <- <-]; reflexivity].
  destruct (observe_series ub a h) as [r0 h'] eqn:Hobs. intros [= <- <-].
  eapply changes_within_insert; [done|]. simpl. rewrite dom_insert_L. set_solver.
Qed.

Lemma observe_keeps_shape c amount : effect keeps_shape (observe c amount).
Proof.
  intros s r s'. unfold observe.
  destruct (s !! child_of c) as [[|ln ub v ch]|] eqn:Hm; try (intros [= <- <-]; reflexivity).
  destruct (ch !! child_key c) eqn:Hk; [|intros [= <- <-]; reflexivity].
  destruct (as_number amount); [|intros [= <- <-]; reflexivity].
  destruct (observe_series ub a h) as [r0 h'] eqn:Hobs. intros [= <- <-].
  eapply keeps_shape_insert; [done|]. intros proto.
  by eapply shaped_like_observe.
Qed.

Section EmitInvariants.
Variable float_repr : Q → string.

Lemma emit_cases (R : relation store) `{!PreOrder R} ctx :
  (∀ s, s ≠ ∅ → truthy (dict_get ctx "path_template") = true →
        ∀ r s', emit_response_metrics float_repr ctx s = (r, s') → R s s') →
  effect R (emit_response_metrics float_repr ctx).
Proof.
  intros H s r s' E.
  destruct (decide (s = ∅)) as [->|Hs].
  { rewrite emit_noop in E by (by left). by simplify_eq. }
  destruct (truthy (dict_get ctx "path_template")) eqn:Hp.
  - by eapply H.
  - rewrite emit_noop in E by (by right). by simplify_eq.
Qed.

Lemma emit_effect_keeps_shape ctx :
  effect keeps_shape (emit_response_metrics float_repr ctx).
Proof.
  apply (emit_cases keeps_shape ctx).
  intros s Hs Hp r s' E. rewrite (emit_matched _ _ _ Hs Hp) in E.
  eapply (effect_apply keeps_shape); [|exact E].
  repeat (apply (effect_bind keeps_shape);
          [first [apply (effect_lift keeps_shape)|apply (effect_getitem keeps_shape)
                 |apply labels_keeps_shape
                 |apply inc_keeps_shape|apply observe_keeps_shape]|intros ? _]).
  destruct (truthy (dict_get ctx "client_id")); [|apply (effect_ret keeps_shape)].
  repeat (apply (effect_bind keeps_shape);
          [first [apply (effect_lift keeps_shape)|apply (effect_getitem keeps_shape)
                 |apply labels_keeps_shape
                 |apply inc_keeps_shape|apply observe_keeps_shape]|intros ? _]).
  apply inc_keeps_shape.
Qed.

(** X4. Whatever the context and however the call ends, by returning or by
    raising, [emit_response_metrics] keeps the metrics in their declared
    shape: each of the three request metrics keeps its kind, its label
    names and its buckets, and every series of the histogram keeps one
    counter per bucket. *)
Theorem emit_keeps_shape (ctx : gmap string value) (s s' : store) r :
  well_formed s →
  emit_response_metrics float_repr ctx s = (r, s') →
  well_formed s'.
Proof. intros Hwf E. by apply (emit_effect_keeps_shape ctx s r s' E). Qed.

Lemma emit_effect_changes ctx :
  effect (changes_within REQUEST_METRICS) (emit_response_metrics float_repr ctx).
Proof.
  apply (emit_cases (changes_within REQUEST_METRICS) ctx).
  intros s Hs Hp r s' E. rewrite (emit_matched _ _ _ Hs Hp) in E.
  eapply (effect_apply (changes_within REQUEST_METRICS)); [|exact E].
  assert (Hlab : ∀ m args kw, m ∈ REQUEST_METRICS →
            effect (changes_within REQUEST_METRICS) (labels m args kw)).
  { intros m args kw Hm s0 r0 s0' E0. eapply changes_within_weaken;
      [|by eapply labels_changes]. set_solver. }
  assert (Hinc : ∀ c, child_of c ∈ REQUEST_METRICS →
            effect (changes_within REQUEST_METRICS) (inc c)).
  { intros c Hm s0 r0 s0' E0. eapply changes_within_weaken;
      [|by eapply inc_changes]. set_solver. }
  assert (Hobs : ∀ c a, child_of c ∈ REQUEST_METRICS →
            effect (changes_within REQUEST_METRICS) (observe c a)).
  { intros c a Hm s0 r0 s0' E0. eapply changes_within_weaken;
      [|by eapply observe_changes]. set_solver. }
  do 4 (apply (effect_bind (changes_within REQUEST_METRICS)); [apply (effect_lift (changes_within REQUEST_METRICS))|intros ? _]).
  apply (effect_bind (changes_within REQUEST_METRICS)); [apply (effect_getitem (changes_within REQUEST_METRICS))|intros ? ->%returns_getitem].
  apply (effect_bind (changes_within REQUEST_METRICS)); [apply Hlab; set_solver|intros c Hc%returns_labels].
  apply (effect_bind (changes_within REQUEST_METRICS)); [apply Hinc; rewrite Hc; set_solver|intros _ _].
  apply (effect_bind (changes_within REQUEST_METRICS)); [apply (effect_getitem (changes_within REQUEST_METRICS))|intros ? ->%returns_getitem].
  apply (effect_bind (changes_within REQUEST_METRICS)); [apply Hlab; set_solver|intros c' Hc'%returns_labels].
  apply (effect_bind (changes_within REQUEST_METRICS)); [apply Hobs; rewrite Hc'; set_solver|intros _ _].
  destruct (truthy (dict_get ctx "client_id")); [|apply (effect_ret (changes_within REQUEST_METRICS))].
  apply (effect_bind (changes_within REQUEST_METRICS)); [apply (effect_getitem (changes_within REQUEST_METRICS))|intros ? ->%returns_getitem].
  apply (effect_bind (changes_within REQUEST_METRICS)); [apply Hlab; set_solver|intros c'' Hc''%returns_labels].
  apply Hinc. rewrite Hc''. set_solver.
Qed.

(** X5. Whatever the metrics dict, the context and the outcome,
    [emit_response_metrics] adds no key to the dict and removes none,
    removes no series of any metric, and leaves every metric other than
    ["requests"], ["requests_duration"] and ["api_requests"] exactly as it
    was (so ["pending_acoustic_sync"] is never touched). *)
Theorem emit_changes_only_request_metrics (ctx : gmap string value)
    (s s' : store) r :
  emit_response_metrics float_repr ctx s = (r, s') →
  dom s' = dom s ∧
  (∀ name, series_of s name ⊆ series_of s' name) ∧
  (∀ name, name ∉ REQUEST_METRICS → s' !! name = s !! name).
Proof. apply emit_effect_changes. Qed.

End EmitInvariants.

(** ** Counting requests *)

Section EmitCounts.
Variable float_repr : Q → string.

(** What [emit_response_metrics] does with a complete context. *)
Lemma emit_complete (ctx : gmap string value) (s : store) :
  well_formed s → complete ctx →
  emit_response_metrics float_repr ctx s
  = (Ok tt,
     let s1 := inc_series "requests" (request_key float_repr ctx) s in
     let s2 := observe_in "requests_duration" (duration_key float_repr ctx)
                 (duration_of ctx) s1 in
     if truthy (dict_get ctx "client_id")
     then inc_series "api_requests" (client_key float_repr ctx) s2
     else s2).
Proof.
  intros Hwf (_ & Hp & [m Hm] & [n Hc] & (d & a & Hd & Ha)).
  rewrite (emit_spec float_repr ctx s m d (VInt n) (family_of n) a Hwf Hp Hm Hd Hc
             (status_code_family_Ok n) Ha).
  unfold emitted, request_key, duration_key, client_key, duration_of, family_text.
  rewrite (dict_get_Some _ _ _ Hm), (dict_get_Some _ _ _ Hc), (dict_get_Some _ _ _ Hd).
  rewrite Ha. cbn [str]. fold (status_code_family n).
  by rewrite status_code_family_Ok.
Qed.


Lemma counter_sample_inc_series (s : store) name ln v ch key key' :
  s !! name = Some (Counter ln v ch) →
  counter_sample (inc_series name key s) name key'
  = if decide (key = key') then (counter_sample s name key' + 1)%Q
    else counter_sample s name key'.
Proof.
  intros H. unfold counter_sample, counter_series, inc_series.
  rewrite H, lookup_insert_eq. unfold bump. rewrite lookup_insert.
  by case_decide; subst.
Qed.

Lemma counter_series_inc_series_ne (s : store) name key key' :
  key' ≠ key →
  counter_series (inc_series name key s) name key' = counter_series s name key'.
Proof.
  intros Hne. unfold counter_series, inc_series.
  destruct (s !! name) as [[ln v ch|]|] eqn:H; rewrite ?H; try done.
  rewrite lookup_insert_eq. unfold bump. by rewrite lookup_insert_ne.
Qed.

Lemma histogram_series_observe_in_ne (s : store) name key a key' :
  key' ≠ key →
  histogram_series (observe_in name key a s) name key'
  = histogram_series s name key'.
Proof.
  intros Hne. unfold histogram_series, observe_in.
  destruct (s !! name) as [[|ln ub v ch]|] eqn:H; rewrite ?H; try done.
  rewrite lookup_insert_eq. by rewrite lookup_insert_ne.
Qed.

Lemma counter_series_frame (s s' : store) name key :
  s' !! name = s !! name → counter_series s' name key = counter_series s name key.
Proof. intros H. unfold counter_series. by rewrite H. Qed.

Lemma histogram_series_frame (s s' : store) name key :
  s' !! name = s !! name →
  histogram_series s' name key = histogram_series s name key.
Proof. intros H. unfold histogram_series. by rewrite H. Qed.

Lemma inc_series_if_lookup_ne (b : bool) name key (s : store) k :
  k ≠ name → (if b then inc_series name key s else s) !! k = s !! k.
Proof. intros H. destruct b; [by apply inc_series_lookup_ne|done]. Qed.

(** X6. A call of [emit_response_metrics] for a matched request returns and
    changes one series per metric at most: every request count series
    other than the one of the context's method, path template, status code
    and family, every duration series other than the one of its method,
    path template and family, and every per-client series other than the
    one of its method, path template, client id and family is as it was
    (absent if it was absent, with the same value otherwise). *)
Theorem emit_leaves_other_series (ctx : gmap string value) (s : store) :
  well_formed s → complete ctx →
  ∃ s', emit_response_metrics float_repr ctx s = (Ok tt, s') ∧
    (∀ key, key ≠ request_key float_repr ctx →
       counter_series s' "requests" key = counter_series s "requests" key) ∧
    (∀ key, key ≠ duration_key float_repr ctx →
       histogram_series s' "requests_duration" key
       = histogram_series s "requests_duration" key) ∧
    (∀ key, key ≠ client_key float_repr ctx →
       counter_series s' "api_requests" key
       = counter_series s "api_requests" key).
Proof.
  intros Hwf Hc. eexists. split; [by apply emit_complete|]. cbv zeta.
  set (s1 := inc_series "requests" _ s).
  set (s2 := observe_in "requests_duration" _ _ s1).
  split; [|split]; intros key Hne.
  - rewrite (counter_series_frame s1)
      by (rewrite inc_series_if_lookup_ne by done; by apply observe_in_lookup_ne).
    by apply counter_series_inc_series_ne.
  - rewrite (histogram_series_frame s2) by (by apply inc_series_if_lookup_ne).
    unfold s2. rewrite histogram_series_observe_in_ne by done.
    apply histogram_series_frame. by apply inc_series_lookup_ne.
  - destruct (truthy (dict_get ctx "client_id")).
    + rewrite counter_series_inc_series_ne by done.
      apply counter_series_frame. unfold s2.
      rewrite observe_in_lookup_ne by done. by apply inc_series_lookup_ne.
    + apply counter_series_frame. unfold s2.
      rewrite observe_in_lookup_ne by done. by apply inc_series_lookup_ne.
Qed.

(** One emission, as the samples of the two counters see it. *)
Lemma emit_step (ctx : gmap string value) (s : store) :
  well_formed s → complete ctx →
  ∃ s', emit_response_metrics float_repr ctx s = (Ok tt, s') ∧
    well_formed s' ∧
    (∀ key, counter_sample s' "requests" key
            = if decide (request_key float_repr ctx = key)
              then (counter_sample s "requests" key + 1)%Q
              else counter_sample s "requests" key) ∧
    (∀ key, counter_sample s' "api_requests" key
            = if decide (truthy (dict_get ctx "client_id") = true
                         ∧ client_key float_repr ctx = key)
              then (counter_sample s "api_requests" key + 1)%Q
              else counter_sample s "api_requests" key).
Proof.
  intros Hwf Hc.
  pose proof (well_formed_inv _ Hwf)
    as ((v1 & ch1 & H1) & (v2 & ch2 & H2 & Hlen) & (v3 & ch3 & H3)).
  pose proof (emit_complete ctx s Hwf Hc) as E. cbv zeta in E.
  eexists. split; [exact E|].
  split; [by eapply (emit_effect_keeps_shape float_repr ctx s _ _ E)|].
  set (s1 := inc_series "requests" _ s).
  set (s2 := observe_in "requests_duration" _ _ s1).
  assert (E3 : s2 !! "api_requests" = Some (Counter API_LABELS v3 ch3)).
  { unfold s2. rewrite observe_in_lookup_ne by done.
    unfold s1. by rewrite inc_series_lookup_ne. }
  split; intros key.
  - rewrite (counter_sample_frame s1)
      by (rewrite inc_series_if_lookup_ne by done; by apply observe_in_lookup_ne).
    by eapply counter_sample_inc_series.
  - destruct (truthy (dict_get ctx "client_id")).
    + rewrite (counter_sample_inc_series _ _ _ _ _ _ _ E3).
      rewrite (counter_sample_frame s s2) by (by rewrite E3, H3).
      repeat case_decide; naive_solver.
    + rewrite (counter_sample_frame s s2) by (by rewrite E3, H3).
      case_decide; naive_solver.
Qed.

Lemma inject_nat_succ (n : nat) :
  (inject_Z (Z.of_nat (S n)) == inject_Z (Z.of_nat n) + 1)%Q.
Proof. rewrite Nat2Z.inj_succ. unfold Z.succ. by rewrite inject_Z_plus. Qed.

Lemma emit_all_counts (ctxs : list (gmap string value)) (s : store) :
  well_formed s → Forall complete ctxs →
  ∃ s', for_each ctxs (emit_response_metrics float_repr) s = (Ok tt, s') ∧
    (∀ key, (counter_sample s' "requests" key
             == counter_sample s "requests" key
                + inject_Z (Z.of_nat (requests_with float_repr key ctxs)))%Q) ∧
    (∀ key, (counter_sample s' "api_requests" key
             == counter_sample s "api_requests" key
                + inject_Z (Z.of_nat (client_requests_with float_repr key ctxs)))%Q).
Proof.
  intros Hwf Hcs. revert s Hwf.
  induction Hcs as [|ctx ctxs Hc Hcs IH]; intros s Hwf.
  - exists s. split; [done|].
    split; intros key; unfold requests_with, client_requests_with;
      rewrite filter_nil; cbn [length]; symmetry; apply Qplus_0_r.
  - destruct (emit_step ctx s Hwf Hc) as (s1 & E1 & Hwf1 & R1 & A1).
    destruct (IH s1 Hwf1) as (s' & E' & R' & A').
    exists s'. split; [simpl; by erewrite bind_Ok|].
    split; intros key.
    + rewrite R', R1. unfold requests_with. rewrite filter_cons.
      destruct (decide (request_key float_repr ctx = key)); [|reflexivity].
      cbn [length]. rewrite inject_nat_succ. ring.
    + rewrite A', A1. unfold client_requests_with. rewrite filter_cons.
      destruct (decide (truthy (dict_get ctx "client_id") = true
                        ∧ client_key float_repr ctx = key)); [|reflexivity].
      cbn [length]. rewrite inject_nat_succ. ring.
Qed.

(** X7. Calling [emit_response_metrics] for a sequence of matched
    requests, one after the other on the same metrics, returns every time,
    and afterwards every request count series has grown by the number of
    requests of the sequence that carry its label values, and every
    per-client series by the number of those that carry its label values
    and a truthy client id. *)
Theorem emit_counts_requests (ctxs : list (gmap string value)) (s : store) :
  well_formed s → Forall complete ctxs →
  ∃ s', for_each ctxs (emit_response_metrics float_repr) s = (Ok tt, s') ∧
    (∀ key, (counter_sample s' "requests" key
             == counter_sample s "requests" key
                + inject_Z (Z.of_nat (requests_with float_repr key ctxs)))%Q) ∧
    (∀ key, (counter_sample s' "api_requests" key
             == counter_sample s "api_requests" key
                + inject_Z (Z.of_nat (client_requests_with float_repr key ctxs)))%Q).
Proof. apply emit_all_counts. Qed.
End EmitCounts.

(** ** Observing durations *)

Lemma le_bound_mono (a : Q) (b b' : bound) :
  bound_leb b b' = true → le_bound a b = true → le_bound a b' = true.
Proof.
  destruct b as [q|], b' as [q'|]; simpl; try done.
  rewrite !Qle_bool_iff. intros H1 H2. by eapply Qle_trans.
Qed.

Lemma ascending_lookup (ub : list bound) (i j : nat) (b b' : bound) :
  ascending ub → (i < j)%nat → ub !! i = Some b → ub !! j = Some b' →
  bound_leb b b' = true.
Proof.
  unfold ascending. intros Hs. revert i j.
  induction Hs as [|x l Hs IH Hx]; intros i j Hij Hi Hj; [done|].
  destruct j as [|j]; [lia|]. destruct i as [|i]; simpl in *.
  - simplify_eq. rewrite Forall_forall in Hx. apply Hx.
    by eapply list_elem_of_lookup_2.
  - eapply (IH i j); [lia|done..].
Qed.

Lemma bucket_index_found (a : Q) (ub : list bound) (i : nat) :
  bucket_index a ub = Some i →
  (∃ b, ub !! i = Some b ∧ le_bound a b = true) ∧
  (∀ j b, (j < i)%nat → ub !! j = Some b → le_bound a b = false).
Proof.
  revert i. induction ub as [|x ub IH]; intros i; simpl; [done|].
  destruct (le_bound a x) eqn:Hx.
  - intros [= <-]. split; [by exists x|]. intros j b Hj. lia.
  - destruct (bucket_index a ub) as [k|]; simpl; [|done]. intros [= <-].
    destruct (IH k eq_refl) as [Hk Hbelow]. split; [done|].
    intros [|j] b Hj; simpl; [by intros [= <-]|].
    apply Hbelow. lia.
Qed.

Lemma observe_series_bucket_below ub a h i j :
  bucket_index a ub = Some i → (j < i)%nat →
  bucket_sample (observe_series ub a h).2 j = bucket_sample h j.
Proof.
  intros Hi Hj. unfold observe_series, bucket_sample. rewrite Hi.
  destruct (h_buckets h !! i); simpl; [|done].
  by rewrite take_insert_ge by lia.
Qed.

Lemma observe_series_buckets ub a h j b :
  ascending ub → INF ∈ ub → length (h_buckets h) = length ub →
  ub !! j = Some b →
  (bucket_sample (observe_series ub a h).2 j
   == bucket_sample h j + (if le_bound a b then 1 else 0))%Q.
Proof.
  intros Hasc Hinf Hlen Hj.
  destruct (bucket_index_INF a ub Hinf) as [i Hi].
  destruct (bucket_index_found a ub i Hi) as [(bi & Hbi & Hle) Hbelow].
  destruct (decide (i ≤ j)%nat) as [Hij|Hij].
  - rewrite (observe_series_bucket ub a h i j Hi Hlen Hij).
    assert (le_bound a b = true) as ->; [|reflexivity].
    destruct (decide (i = j)) as [->|Hne]; [by simplify_eq|].
    eapply le_bound_mono; [|exact Hle].
    eapply (ascending_lookup ub i j); [done|lia|done..].
  - rewrite (observe_series_bucket_below ub a h i j Hi) by lia.
    rewrite (Hbelow j b) by (done || lia). symmetry. apply Qplus_0_r.
Qed.

Lemma DURATION_BUCKETS_ascending : ascending DURATION_BUCKETS.
Proof.
  unfold ascending, DURATION_BUCKETS.
  repeat (apply SSorted_cons; [|repeat (apply Forall_cons_2; [reflexivity|]); apply Forall_nil_2]).
  apply SSorted_nil.
Qed.

Lemma DURATION_BUCKETS_INF : INF ∈ DURATION_BUCKETS.
Proof. unfold DURATION_BUCKETS. repeat constructor. Qed.

Section EmitBuckets.
Variable float_repr : Q → string.

(** X8. The duration histogram that [emit_response_metrics] observes is
    cumulative over the buckets of [METRICS_PARAMS]: for a matched request
    the bucket sample of every upper bound the duration does not exceed
    grows by one and the others stay, the count sample grows by one, and
    the sum grows by the duration. *)
Theorem emit_observes_buckets (ctx : gmap string value) (s : store)
    (j : nat) (b : bound) :
  well_formed s → complete ctx →
  DURATION_BUCKETS !! j = Some b →
  ∃ s', emit_response_metrics float_repr ctx s = (Ok tt, s') ∧
    let h := histogram_sample DURATION_BUCKETS s "requests_duration"
               (duration_key float_repr ctx) in
    let h' := histogram_sample DURATION_BUCKETS s' "requests_duration"
                (duration_key float_repr ctx) in
    (bucket_sample h' j
     == bucket_sample h j + (if le_bound (duration_of ctx) b then 1 else 0))%Q ∧
    (count_sample h' == count_sample h + 1)%Q ∧
    h_sum h' = (h_sum h + duration_of ctx)%Q.
Proof.
  intros Hwf Hc Hj.
  pose proof (well_formed_inv _ Hwf)
    as ((v1 & ch1 & H1) & (v2 & ch2 & H2 & Hlen) & _).
  eexists. split; [by apply emit_complete|]. cbv zeta.
  set (s1 := inc_series "requests" _ s).
  assert (H2' : s1 !! "requests_duration"
                = Some (Histogram DURATION_LABELS DURATION_BUCKETS v2 ch2))
    by (unfold s1; by rewrite inc_series_lookup_ne).
  rewrite (histogram_sample_frame _
             (observe_in "requests_duration" (duration_key float_repr ctx)
                (duration_of ctx) s1))
    by (by apply inc_series_if_lookup_ne).
  rewrite (histogram_sample_observe _ _ _ _ _ _ _ _ H2').
  rewrite (histogram_sample_frame _ s s1) by (by rewrite H2', H2).
  assert (Hl : length (h_buckets (histogram_sample DURATION_BUCKETS s
                 "requests_duration" (duration_key float_repr ctx)))
               = length DURATION_BUCKETS)
    by (by eapply histogram_sample_length).
  split; [|split].
  - apply observe_series_buckets;
      [apply DURATION_BUCKETS_ascending|apply DURATION_BUCKETS_INF|done|done].
  - apply observe_series_count; [apply DURATION_BUCKETS_INF|done].
  - apply observe_series_sum.
Qed.
End EmitBuckets.

(** ** Pre-registration in closed form *)

Lemma touch_union {V} (zero : V) (key : list string) (ch : gmap (list string) V) :
  touch zero key ch = ch ∪ gset_to_gmap zero {[key]}.
Proof.
  apply map_eq. intros k. unfold touch.
  rewrite lookup_union, lookup_gset_to_gmap.
  destruct (ch !! key) eqn:E.
  - destruct (ch !! k) eqn:Ek; simpl; [by destruct (guard _)|].
    rewrite option_guard_False by set_solver. done.
  - rewrite lookup_insert. case_decide; subst.
    + rewrite E, option_guard_True by set_solver. done.
    + rewrite option_guard_False by set_solver. by destruct (ch !! k).
Qed.

Lemma gset_to_gmap_union_keys {V} (x : V) (X Y : gset (list string))
    (ch : gmap (list string) V) :
  ch ∪ gset_to_gmap x X ∪ gset_to_gmap x Y = ch ∪ gset_to_gmap x (X ∪ Y).
Proof.
  apply map_eq. intros k. rewrite !lookup_union, !lookup_gset_to_gmap.
  destruct (ch !! k); simpl.
  - by repeat destruct (guard _).
  - destruct (decide (k ∈ X)), (decide (k ∈ Y)).
    + rewrite !option_guard_True by set_solver. done.
    + rewrite (option_guard_True (k ∈ X)), (option_guard_False (k ∈ Y)),
        (option_guard_True (k ∈ X ∪ Y)) by set_solver. done.
    + rewrite (option_guard_False (k ∈ X)), (option_guard_True (k ∈ Y)),
        (option_guard_True (k ∈ X ∪ Y)) by set_solver. done.
    + rewrite !option_guard_False by set_solver. done.
Qed.

Lemma ensure_child_add_series m key : ensure_child m key = add_series {[key]} m.
Proof. destruct m; simpl; by rewrite touch_union. Qed.

Lemma add_series_union X Y m : add_series Y (add_series X m) = add_series (X ∪ Y) m.
Proof. destruct m; simpl; by rewrite gset_to_gmap_union_keys. Qed.

Lemma add_series_empty m : add_series ∅ m = m.
Proof.
  destruct m; simpl; by rewrite gset_to_gmap_empty, (right_id_L ∅ (∪)).
Qed.

Lemma series_keys_add_series X m : series_keys (add_series X m) = series_keys m ∪ X.
Proof. destruct m; simpl; by rewrite dom_union_L, dom_gset_to_gmap. Qed.

Lemma touch_store_alter m key (s : store) :
  touch_store m key s = alter (add_series {[key]}) m s.
Proof.
  unfold touch_store. destruct (s !! m) as [metric|] eqn:E.
  - rewrite ensure_child_add_series. apply map_eq. intros k.
    rewrite lookup_insert, lookup_alter. case_decide; subst; [by rewrite E|done].
  - apply map_eq. intros k. rewrite lookup_alter.
    case_decide; subst; [by rewrite E|done].
Qed.

Lemma alter_add_series_twice X Y m (s : store) :
  alter (add_series Y) m (alter (add_series X) m s) = alter (add_series (X ∪ Y)) m s.
Proof.
  rewrite alter_alter_eq. apply alter_ext. intros x _. apply add_series_union.
Qed.

Lemma touch_all_alter m keys (s : store) :
  touch_all m keys s = alter (add_series (list_to_set keys)) m s.
Proof.
  revert s. induction keys as [|k keys IH]; intros s.
  - symmetry. apply alter_id. intros x _. apply add_series_empty.
  - change (touch_all m (k :: keys) s) with (touch_all m keys (touch_store m k s)).
    by rewrite IH, touch_store_alter, alter_add_series_twice.
Qed.

Lemma route_touched_pre_registered methods path client_ids status_codes is_api
    (s : store) :
  route_touched methods path client_ids status_codes is_api s
  = pre_registered
      (list_to_set (request_keys methods path status_codes))
      (list_to_set (timing_keys methods path status_codes))
      (if is_api
       then list_to_set (api_keys methods path client_ids status_codes)
       else ∅) s.
Proof.
  unfold route_touched, pre_registered. rewrite !touch_all_alter.
  destruct is_api; [done|].
  symmetry. apply alter_id. intros x _. apply add_series_empty.
Qed.

Lemma pre_registered_twice rs ds cs rs' ds' cs' (s : store) :
  pre_registered rs' ds' cs' (pre_registered rs ds cs s)
  = pre_registered (rs ∪ rs') (ds ∪ ds') (cs ∪ cs') s.
Proof.
  unfold pre_registered. apply map_eq. intros k. rewrite !lookup_alter.
  repeat case_decide; simplify_eq; try done;
    destruct (s !! _); simpl; by rewrite ?add_series_union.
Qed.

Lemma pre_registered_empty (s : store) : pre_registered ∅ ∅ ∅ s = s.
Proof.
  unfold pre_registered.
  rewrite !alter_id; [done|intros x _; apply add_series_empty..].
Qed.

Lemma for_each_app {A} (l1 l2 : list A) (body : A → M unit) (s : store) :
  for_each (l1 ++ l2) body s
  = (for_each l1 body ≫= λ _, for_each l2 body) s.
Proof.
  revert s. induction l1 as [|x l1 IH]; intros s; simpl; [done|].
  unfold mbind, M_bind in *. destruct (body x s) as [[[]|e] s1]; [|done].
  apply IH.
Qed.

Lemma init_routes_closed openapi client_ids rs (s : store) :
  well_formed s →
  Forall (route_accepted openapi) rs →
  init_routes openapi client_ids rs s
  = (Ok tt,
     pre_registered (⋃ (request_series openapi <$> rs))
       (⋃ (timing_series openapi <$> rs))
       (⋃ (api_series openapi client_ids <$> rs)) s).
Proof.
  intros Hwf Hrs. revert s Hwf. unfold init_routes.
  induction Hrs as [|r rs Hr Hrs IH]; intros s Hwf.
  - simpl. by rewrite pre_registered_empty.
  - destruct r as [route|]; [|done]. destruct Hr as (codes & is_api & Hcodes).
    cbn [for_each].
    erewrite bind_Ok by (by apply init_route_labels_spec).
    rewrite IH by (by apply route_touched_well_formed).
    rewrite route_touched_pre_registered, pre_registered_twice.
    rewrite !fmap_cons, !union_list_cons.
    cbn [request_series timing_series api_series]. rewrite Hcodes.
    by destruct is_api.
Qed.

Lemma init_metrics_labels_routes ids app (s : store) :
  well_formed s →
  init_metrics_labels ids app s
  = init_routes (openapi app) (client_ids_or_none ids) (routes app) s.
Proof. apply init_metrics_labels_loop. Qed.

Lemma series_of_pre_registered rs ds cs (s : store) :
  well_formed s →
  series_of (pre_registered rs ds cs s) "requests" = series_of s "requests" ∪ rs ∧
  series_of (pre_registered rs ds cs s) "requests_duration"
  = series_of s "requests_duration" ∪ ds ∧
  series_of (pre_registered rs ds cs s) "api_requests"
  = series_of s "api_requests" ∪ cs.
Proof.
  intros ((v1 & ch1 & H1) & (v2 & ch2 & H2 & _) & (v3 & ch3 & H3))%well_formed_inv.
  unfold series_of, pre_registered. split; [|split].
  - rewrite !lookup_alter_ne, lookup_alter_eq, H1 by done.
    apply series_keys_add_series.
  - rewrite lookup_alter_ne, lookup_alter_eq, lookup_alter_ne, H2 by done.
    apply series_keys_add_series.
  - rewrite lookup_alter_eq, !lookup_alter_ne, H3 by done.
    apply series_keys_add_series.
Qed.

(** ** The series [init_metrics_labels] creates *)

Lemma elem_of_request_series openapi rs key :
  key ∈ ⋃ (request_series openapi <$> rs) ↔
  ∃ route status_codes is_api method status_code,
    ARoute route ∈ rs ∧
    route_status_codes openapi (methods route) (path_format route)
    = Ok (status_codes, is_api) ∧
    method ∈ methods route ∧ status_code ∈ status_codes ∧
    key = [method; path_format route; pretty status_code; family_of status_code].
Proof.
  rewrite elem_of_union_list. split.
  - intros (X & (r & -> & Hr)%list_elem_of_fmap & Hkey).
    destruct r as [route|]; simpl in Hkey; [|set_solver].
    destruct (route_status_codes _ _ _) as [[codes is_api]|e] eqn:Hc; [|set_solver].
    apply elem_of_list_to_set, elem_of_request_keys in Hkey as (m & c & Hm & Hcc & ->).
    exists route, codes, is_api, m, c. done.
  - intros (route & codes & is_api & m & c & Hr & Hc & Hm & Hcc & ->).
    exists (request_series openapi (ARoute route)).
    split; [apply list_elem_of_fmap; eauto|].
    simpl. rewrite Hc. apply elem_of_list_to_set, elem_of_request_keys. eauto.
Qed.

Lemma elem_of_timing_series openapi rs key :
  key ∈ ⋃ (timing_series openapi <$> rs) ↔
  ∃ route status_codes is_api method status_code,
    ARoute route ∈ rs ∧
    route_status_codes openapi (methods route) (path_format route)
    = Ok (status_codes, is_api) ∧
    method ∈ methods route ∧ status_code ∈ status_codes ∧
    key = [method; path_format route; family_of status_code].
Proof.
  rewrite elem_of_union_list. split.
  - intros (X & (r & -> & Hr)%list_elem_of_fmap & Hkey).
    destruct r as [route|]; simpl in Hkey; [|set_solver].
    destruct (route_status_codes _ _ _) as [[codes is_api]|e] eqn:Hc; [|set_solver].
    apply elem_of_list_to_set, elem_of_timing_keys in Hkey as (m & c & Hm & Hcc & ->).
    exists route, codes, is_api, m, c. done.
  - intros (route & codes & is_api & m & c & Hr & Hc & Hm & Hcc & ->).
    exists (timing_series openapi (ARoute route)).
    split; [apply list_elem_of_fmap; eauto|].
    simpl. rewrite Hc. apply elem_of_list_to_set, elem_of_timing_keys. eauto.
Qed.

Lemma elem_of_api_series openapi client_ids rs key :
  key ∈ ⋃ (api_series openapi client_ids <$> rs) ↔
  ∃ route status_codes method status_code client_id,
    ARoute route ∈ rs ∧
    route_status_codes openapi (methods route) (path_format route)
    = Ok (status_codes, true) ∧
    method ∈ methods route ∧ status_code ∈ status_codes ∧
    client_id ∈ client_ids ∧
    key = [method; path_format route; client_id; family_of status_code].
Proof.
  rewrite elem_of_union_list. split.
  - intros (X & (r & -> & Hr)%list_elem_of_fmap & Hkey).
    destruct r as [route|]; simpl in Hkey; [|set_solver].
    destruct (route_status_codes _ _ _) as [[codes [|]]|e] eqn:Hc; try set_solver.
    apply elem_of_list_to_set, elem_of_api_keys in Hkey
      as (m & c & cid & Hm & Hcc & Hcid & ->).
    exists route, codes, m, c, cid. done.
  - intros (route & codes & m & c & cid & Hr & Hc & Hm & Hcc & Hcid & ->).
    exists (api_series openapi client_ids (ARoute route)).
    split; [apply list_elem_of_fmap; eauto|].
    simpl. rewrite Hc. apply elem_of_list_to_set, elem_of_api_keys. eauto 10.
Qed.

(** X9. After [init_metrics_labels] on an application all of whose routes
    are accepted, the series of the request count metric are those it had
    before together with one for every route, method of the route and
    status code of the route (labelled with the status code and its
    family), and the series of the duration metric are those it had before
    together with one for every route, method and family of a status code
    of the route; nothing else is created in these two metrics. *)
Theorem request_and_duration_series ids app (s : store) :
  well_formed s →
  Forall (route_accepted (openapi app)) (routes app) →
  ∃ s', init_metrics_labels ids app s = (Ok tt, s') ∧
    (∀ key, key ∈ series_of s' "requests" ↔
       key ∈ series_of s "requests" ∨
       ∃ route status_codes is_api method status_code,
         ARoute route ∈ routes app ∧
         route_status_codes (openapi app) (methods route) (path_format route)
         = Ok (status_codes, is_api) ∧
         method ∈ methods route ∧ status_code ∈ status_codes ∧
         key = [method; path_format route; pretty status_code;
                family_of status_code]) ∧
    (∀ key, key ∈ series_of s' "requests_duration" ↔
       key ∈ series_of s "requests_duration" ∨
       ∃ route status_codes is_api method status_code,
         ARoute route ∈ routes app ∧
         route_status_codes (openapi app) (methods route) (path_format route)
         = Ok (status_codes, is_api) ∧
         method ∈ methods route ∧ status_code ∈ status_codes ∧
         key = [method; path_format route; family_of status_code]).
Proof.
  intros Hwf Hrs. eexists. split.
  { rewrite (init_metrics_labels_routes ids app s Hwf).
    apply init_routes_closed; assumption. }
  destruct (series_of_pre_registered
              (⋃ (request_series (openapi app) <$> routes app))
              (⋃ (timing_series (openapi app) <$> routes app))
              (⋃ (api_series (openapi app) (client_ids_or_none ids) <$> routes app))
              s Hwf) as (-> & -> & _).
  split; intros key; rewrite elem_of_union.
  - by rewrite elem_of_request_series.
  - by rewrite elem_of_timing_series.
Qed.

(** Errors of one entry. *)
Lemma mapM_int_Raise keys e :
  mapM int keys = Raise e → ∃ msg, e = ValueError msg.
Proof.
  revert e. induction keys as [|k keys IH]; intros e; [done|].
  change (mapM int (k :: keys))
    with (match int k with
          | Ok y => match mapM int keys with
                    | Ok l => Ok (y :: l)
                    | Raise e' => Raise e'
                    end
          | Raise e' => Raise e'
          end).
  unfold int at 1. destruct (parse_int k).
  - destruct (mapM int keys); [done|]. intros [= <-]. by apply IH.
  - intros [= <-]. by eexists.
Qed.

Lemma collect_status_codes_Raise methods path items codes is_api e :
  collect_status_codes methods path items codes is_api = Raise e →
  ∃ msg, e = ValueError msg.
Proof.
  revert codes is_api. induction items as [|[ml ms] items IH]; intros codes is_api;
    simpl; [done|].
  case_bool_decide; [|apply IH].
  destruct (response_codes ms) as [cs|e'] eqn:Hk.
  - apply IH.
  - intros [= <-]. unfold response_codes in Hk.
    destruct (responses ms) as [keys|]; [|done]. by eapply mapM_int_Raise.
Qed.

Lemma route_status_codes_Raise openapi methods path e :
  route_status_codes openapi methods path = Raise e → ∃ msg, e = ValueError msg.
Proof.
  unfold route_status_codes.
  destruct (paths openapi !! path) as [[|item items]|];
    [by destruct (String.eqb _ _)|apply collect_status_codes_Raise
    |by destruct (String.eqb _ _)].
Qed.

Lemma init_route_labels_Raise openapi client_ids rm tm am route e (s : store) :
  route_status_codes openapi (methods route) (path_format route) = Raise e →
  init_route_labels openapi client_ids rm tm am (ARoute route) s = (Raise e, s).
Proof. intros H. unfold init_route_labels. by rewrite H. Qed.

(** X10. [init_metrics_labels] stops at the first entry of [app.routes] it
    cannot process: an entry that is not a [Route] fails the assertion
    ([AssertionError]), a route whose OpenAPI responses have a key that
    [int] rejects raises [ValueError].  The series of the entries before it
    have been created, exactly as by a run over those entries alone, and
    nothing is created for the entries after it. *)
Theorem init_metrics_labels_stops_at_first_error ids app (s : store)
    (before after : list BaseRoute) (entry : BaseRoute) :
  well_formed s →
  routes app = (before ++ entry :: after)%list →
  Forall (route_accepted (openapi app)) before →
  ¬ route_accepted (openapi app) entry →
  ∃ s1 e,
    init_metrics_labels ids {| routes := before; openapi := openapi app |} s
    = (Ok tt, s1) ∧
    init_metrics_labels ids app s = (Raise e, s1) ∧
    match entry with
    | OtherRoute => e = AssertionError
    | ARoute route =>
        route_status_codes (openapi app) (methods route) (path_format route)
        = Raise e ∧ ∃ msg, e = ValueError msg
    end.
Proof.
  intros Hwf Hroutes Hbefore Hentry.
  pose proof (init_routes_closed (openapi app) (client_ids_or_none ids) before s
                Hwf Hbefore) as E1.
  eexists. cut (∃ e, ∀ t,
    init_route_labels (openapi app) (client_ids_or_none ids) "requests"
      "requests_duration" "api_requests" entry t = (Raise e, t) ∧
    match entry with
    | OtherRoute => e = AssertionError
    | ARoute route =>
        route_status_codes (openapi app) (methods route) (path_format route)
        = Raise e ∧ ∃ msg, e = ValueError msg
    end).
  { intros (e & He). exists e. split; [|split].
    - rewrite (init_metrics_labels_routes ids _ s Hwf). exact E1.
    - rewrite (init_metrics_labels_routes ids app s Hwf). rewrite Hroutes.
      unfold init_routes in *. rewrite for_each_app.
      erewrite bind_Ok by exact E1. cbn [for_each].
      apply bind_Raise, He.
    - apply (He s). }
  destruct entry as [route|].
  - destruct (route_status_codes (openapi app) (methods route) (path_format route))
      as [[codes is_api]|e] eqn:Hc.
    + destruct Hentry. simpl. eauto.
    + exists e. intros t. split; [by apply init_route_labels_Raise|].
      split; [done|]. by eapply route_status_codes_Raise.
  - exists AssertionError. done.
Qed.

(** What growth of the store means for the samples. *)
Lemma store_grows_counter_sample (s s' : store) name key :
  store_grows s s' → counter_sample s' name key = counter_sample s name key.
Proof.
  intros Hg. specialize (Hg name). unfold counter_sample, counter_series.
  destruct Hg as [m m' Hmm|]; [|done].
  destruct m as [ln v ch|ln ub v ch], m' as [ln' v' ch'|ln' ub' v' ch']; try done.
  simpl in Hmm. destruct Hmm as (_ & _ & Hsub & Hnew).
  destruct (ch !! key) as [x|] eqn:E.
  - by rewrite (lookup_weaken _ _ _ _ E Hsub).
  - destruct (ch' !! key) as [y|] eqn:E'; [|done]. simpl. eauto.
Qed.

Lemma store_grows_histogram_sample (s s' : store) name ln ub v ch key :
  store_grows s s' → s !! name = Some (Histogram ln ub v ch) →
  histogram_sample ub s' name key = histogram_sample ub s name key.
Proof.
  intros Hg Hs. specialize (Hg name). unfold histogram_sample, histogram_series.
  rewrite Hs in *. inversion Hg as [m m' Hmm Hm Hm'|]; subst.
  destruct m' as [|ln' ub' v' ch']; [done|].
  simpl in Hmm. destruct Hmm as (_ & -> & _ & Hsub & Hnew).
  destruct (ch !! key) as [x|] eqn:E.
  - by rewrite (lookup_weaken _ _ _ _ E Hsub).
  - destruct (ch' !! key) as [y|] eqn:E'; [|done]. simpl. eauto.
Qed.

Lemma store_grows_series_of (s s' : store) name :
  store_grows s s' → series_of s name ⊆ series_of s' name.
Proof.
  intros Hg. specialize (Hg name). unfold series_of.
  destruct Hg as [m m' Hmm|]; [|done].
  destruct m as [ln v ch|ln ub v ch], m' as [ln' v' ch'|ln' ub' v' ch']; try done;
    simpl in *.
  - destruct Hmm as (_ & _ & Hsub & _). by apply subseteq_dom.
  - destruct Hmm as (_ & _ & _ & Hsub & _). by apply subseteq_dom.
Qed.

(** X11. [init_metrics_labels] changes no sample: whatever the
    application and however the call ends, every counter reads as before
    (a series it creates starts at zero, as an absent series reads),
    every histogram series reads as before, no series is removed, and the
    metrics keep their declared shape. *)
Theorem init_metrics_labels_changes_no_sample ids app (s s' : store) r :
  init_metrics_labels ids app s = (r, s') →
  (∀ name key, counter_sample s' name key = counter_sample s name key) ∧
  (∀ name ln ub v ch key, s !! name = Some (Histogram ln ub v ch) →
     histogram_sample ub s' name key = histogram_sample ub s name key) ∧
  (∀ name, series_of s name ⊆ series_of s' name) ∧
  (well_formed s → well_formed s').
Proof.
  intros E.
  destruct (settles_init_metrics_labels ids app s r s' E) as [Hg _].
  split; [|split; [|split]].
  - intros name key. by apply store_grows_counter_sample.
  - intros name ln ub v ch key. by apply store_grows_histogram_sample.
  - intros name. by apply store_grows_series_of.
  - intros Hwf. by eapply well_formed_grows.
Qed.

(** ** Emission after pre-registration; order of routes and methods *)

Lemma series_of_all_series (s s' : store) name :
  all_series s' = all_series s → series_of s' name = series_of s name.
Proof.
  intros H. unfold series_of.
  assert (E : all_series s' !! name = all_series s !! name) by (by rewrite H).
  unfold all_series in E. rewrite !lookup_fmap in E.
  destruct (s' !! name), (s !! name); simpl in *; by simplify_eq.
Qed.

Lemma all_series_insert (s : store) name m m' :
  s !! name = Some m → series_keys m' = series_keys m →
  all_series (<[name := m']> s) = all_series s.
Proof.
  intros Hs Hk. unfold all_series. rewrite fmap_insert, Hk.
  apply insert_id. by rewrite lookup_fmap, Hs.
Qed.

Lemma all_series_inc_series (s : store) name key :
  key ∈ series_of s name → all_series (inc_series name key s) = all_series s.
Proof.
  unfold series_of, inc_series.
  destruct (s !! name) as [[ln v ch|]|] eqn:Hs; simpl; try done.
  intros Hk. eapply all_series_insert; [done|]. simpl. unfold bump.
  rewrite dom_insert_L. set_solver.
Qed.

Lemma all_series_observe_in (s : store) name key a :
  key ∈ series_of s name → all_series (observe_in name key a s) = all_series s.
Proof.
  unfold series_of, observe_in.
  destruct (s !! name) as [[|ln ub v ch]|] eqn:Hs; simpl; try done.
  intros Hk. eapply all_series_insert; [done|]. simpl.
  rewrite dom_insert_L. set_solver.
Qed.

Section EmissionAfterInit.
Variable float_repr : Q → string.

(** X12. After [init_metrics_labels], [emit_response_metrics] for a request
    to one of the application's routes, with one of the route's methods and
    one of the status codes the route declares, creates no series in any
    metric: it only updates series that exist.  For a request with a
    client id this needs the route to be an API route and the client id to
    be one of the ids given to [init_metrics_labels] (or ["none"] when none
    was given). *)
Theorem emission_after_init_creates_no_series ids app (s : store)
    (route : Route) (status_codes : list Z) (is_api : bool)
    (method : string) (status_code : Z) (ctx : gmap string value) :
  well_formed s →
  Forall (route_accepted (openapi app)) (routes app) →
  ARoute route ∈ routes app →
  route_status_codes (openapi app) (methods route) (path_format route)
  = Ok (status_codes, is_api) →
  method ∈ methods route →
  status_code ∈ status_codes →
  path_format route ≠ "" →
  printable ctx →
  ctx !! "method" = Some (VStr method) →
  ctx !! "path_template" = Some (VStr (path_format route)) →
  ctx !! "status_code" = Some (VInt status_code) →
  (∃ d a, ctx !! "duration_s" = Some d ∧ as_number d = Ok a) →
  (truthy (dict_get ctx "client_id") = false ∨
   (is_api = true ∧
    ∃ client_id, ctx !! "client_id" = Some (VStr client_id) ∧
                 (client_id ∈ ids ∨ (ids = [] ∧ client_id = "none")))) →
  ∃ s1 s2,
    init_metrics_labels ids app s = (Ok tt, s1) ∧
    emit_response_metrics float_repr ctx s1 = (Ok tt, s2) ∧
    all_series s2 = all_series s1.
Proof.
  intros Hwf Hrs Hr Hcodes Hm Hc Hpath Hpr Hcm Hcp Hcs Hd Hcid.
  pose proof (init_routes_closed (openapi app) (client_ids_or_none ids)
                (routes app) s Hwf Hrs) as E1.
  rewrite <- (init_metrics_labels_routes ids app s Hwf) in E1.
  set (s1 := pre_registered _ _ _ s) in E1.
  assert (Hwf1 : well_formed s1).
  { eapply well_formed_grows; [exact Hwf|].
    by destruct (settles_init_metrics_labels ids app s _ _ E1). }
  assert (Hcomplete : complete ctx).
  { split; [exact Hpr|].
    split; [|split; [by eexists|split; [by eexists|done]]].
    rewrite (dict_get_Some _ _ _ Hcp). simpl.
    destruct (String.eqb_spec (path_format route) ""); done. }
  destruct (series_of_pre_registered
              (⋃ (request_series (openapi app) <$> routes app))
              (⋃ (timing_series (openapi app) <$> routes app))
              (⋃ (api_series (openapi app) (client_ids_or_none ids) <$> routes app))
              s Hwf) as (S1 & S2 & S3).
  fold s1 in S1, S2, S3.
  assert (Hfam : family_text float_repr (VInt status_code) = family_of status_code).
  { unfold family_text. cbn [str]. fold (status_code_family status_code).
    by rewrite status_code_family_Ok. }
  assert (K1 : request_key float_repr ctx ∈ series_of s1 "requests").
  { unfold request_key.
    rewrite (dict_get_Some _ _ _ Hcm), (dict_get_Some _ _ _ Hcp),
      (dict_get_Some _ _ _ Hcs), Hfam. cbn [str].
    rewrite S1. apply elem_of_union_r, elem_of_request_series. eauto 10. }
  assert (K2 : duration_key float_repr ctx ∈ series_of s1 "requests_duration").
  { unfold duration_key.
    rewrite (dict_get_Some _ _ _ Hcm), (dict_get_Some _ _ _ Hcp),
      (dict_get_Some _ _ _ Hcs), Hfam. cbn [str].
    rewrite S2. apply elem_of_union_r, elem_of_timing_series. eauto 10. }
  exists s1. eexists. split; [exact E1|]. split; [by apply emit_complete|].
  cbv zeta.
  set (t1 := inc_series "requests" _ s1).
  assert (A1 : all_series t1 = all_series s1) by (by apply all_series_inc_series).
  set (t2 := observe_in "requests_duration" _ _ t1).
  assert (A2 : all_series t2 = all_series s1).
  { unfold t2. rewrite all_series_observe_in; [done|].
    by rewrite (series_of_all_series s1 t1). }
  destruct Hcid as [Hno|(-> & cid & Hcid & Hin)].
  - by rewrite Hno.
  - destruct (truthy (dict_get ctx "client_id")); [|done].
    rewrite all_series_inc_series; [done|].
    rewrite (series_of_all_series s1 t2) by done.
    unfold client_key.
    rewrite (dict_get_Some _ _ _ Hcm), (dict_get_Some _ _ _ Hcp),
      (dict_get_Some _ _ _ Hcs), (dict_get_Some _ _ _ Hcid), Hfam. cbn [str].
    rewrite S3. apply elem_of_union_r, elem_of_api_series.
    exists route, status_codes, method, status_code, cid.
    repeat split; try done. by apply elem_of_client_ids_or_none.
Qed.
End EmissionAfterInit.

(** Order of methods and of routes. *)
Lemma collect_status_codes_ext methods methods' path items codes is_api :
  (∀ m, m ∈ methods' ↔ m ∈ methods) →
  collect_status_codes methods' path items codes is_api
  = collect_status_codes methods path items codes is_api.
Proof.
  intros H. revert codes is_api.
  induction items as [|[ml ms] items IH]; intros codes is_api; simpl; [done|].
  rewrite (bool_decide_ext _ _ (H (upper ml))).
  case_bool_decide; [|apply IH].
  destruct (response_codes ms); simpl; [apply IH|done].
Qed.

Lemma route_status_codes_ext openapi methods methods' path :
  (∀ m, m ∈ methods' ↔ m ∈ methods) →
  route_status_codes openapi methods' path = route_status_codes openapi methods path.
Proof.
  intros H. unfold route_status_codes.
  destruct (paths openapi !! path) as [[|item items]|]; try done.
  by apply collect_status_codes_ext.
Qed.

(** X13. What [init_metrics_labels] does for one route depends on the
    route's methods as a set only, as [list(route.methods)] gives them in
    no particular order: two routes with the same path and the same methods,
    in any order and with any repetition, give the same outcome and the
    same metrics, that is the same series with the same values (the
    metrics of the model record no creation order of their series). *)
Theorem init_route_labels_methods_order openapi client_ids
    (route route' : Route) (s : store) :
  well_formed s →
  path_format route' = path_format route →
  (∀ m, m ∈ methods route' ↔ m ∈ methods route) →
  init_route_labels openapi client_ids "requests" "requests_duration"
    "api_requests" (ARoute route') s
  = init_route_labels openapi client_ids "requests" "requests_duration"
      "api_requests" (ARoute route) s.
Proof.
  intros Hwf Hp Hm.
  pose proof (route_status_codes_ext openapi (methods route) (methods route')
                (path_format route) Hm) as Hrs.
  destruct (route_status_codes openapi (methods route) (path_format route))
    as [[codes is_api]|e] eqn:Hc.
  - rewrite (init_route_labels_spec _ _ route s codes is_api Hwf Hc).
    rewrite (init_route_labels_spec _ _ route' s codes is_api Hwf)
      by (by rewrite Hp).
    rewrite !route_touched_pre_registered, Hp. f_equal.
    f_equal; [| |destruct is_api; [|done]]; apply set_eq; intros key;
      rewrite !elem_of_list_to_set.
    + rewrite !elem_of_request_keys. by setoid_rewrite Hm.
    + rewrite !elem_of_timing_keys. by setoid_rewrite Hm.
    + rewrite !elem_of_api_keys. by setoid_rewrite Hm.
  - rewrite (init_route_labels_Raise _ _ _ _ _ route e s Hc).
    apply init_route_labels_Raise. by rewrite Hp.
Qed.

Lemma union_list_fmap_Permutation {A} (f : A → gset (list string)) (l l' : list A) :
  l' ≡ₚ l → ⋃ (f <$> l') = ⋃ (f <$> l).
Proof.
  intros H. apply set_eq. intros key. rewrite !elem_of_union_list.
  by setoid_rewrite H.
Qed.

(** X14. On an application all of whose routes are accepted,
    [init_metrics_labels] gives the same metrics for the routes in any
    order: the same series with the same values. *)
Theorem init_metrics_labels_routes_order ids (app app' : FastAPI) (s : store) :
  well_formed s →
  openapi app' = openapi app →
  routes app' ≡ₚ routes app →
  Forall (route_accepted (openapi app)) (routes app) →
  init_metrics_labels ids app' s = init_metrics_labels ids app s.
Proof.
  intros Hwf Ho Hperm Hrs.
  rewrite !init_metrics_labels_routes by done.
  rewrite !init_routes_closed; [|done..| done |rewrite Ho; by rewrite Hperm].
  rewrite Ho.
  by rewrite !(union_list_fmap_Permutation _ _ _ Hperm).
Qed.

(** ** Pubsub routes, status code families, reporting errors, start-up *)

(** X15. A route whose path ends in [from_pubsub] is never an API route
    for [init_metrics_labels], even when its OpenAPI operations declare
    [security]: processing it leaves the per-client metric
    ["api_requests"] exactly as it was. *)
Theorem pubsub_route_has_no_client_series openapi client_ids (route : Route)
    (s : store) :
  well_formed s →
  route_accepted openapi (ARoute route) →
  endswith (path_format route) "from_pubsub" = true →
  ∃ s', init_route_labels openapi client_ids "requests" "requests_duration"
          "api_requests" (ARoute route) s = (Ok tt, s') ∧
        s' !! "api_requests" = s !! "api_requests".
Proof.
  intros Hwf (codes & is_api & Hcodes) Hend.
  assert (is_api = false) as ->.
  { destruct is_api; [|done].
    pose proof (proj1 (route_status_codes_is_api _ _ _ _ Hcodes) eq_refl) as [_ H].
    congruence. }
  eexists. split; [by apply init_route_labels_spec|].
  unfold route_touched. by rewrite !touch_all_lookup_ne.
Qed.

(** The family of a three-digit status code. *)
Lemma three_digit_families :
  Forall (λ n, status_code_family n = Ok (pretty (n / 100) +:+ "xx"))
         (seqZ 100 900).
Proof.
  apply Forall_forall. intros n Hn.
  assert (H : forallb (λ n, match status_code_family n with
                            | Ok f => String.eqb f (pretty (n / 100) +:+ "xx")
                            | Raise _ => false
                            end) (seqZ 100 900) = true)
    by (vm_compute; reflexivity).
  rewrite forallb_forall in H. apply list_elem_of_In in Hn.
  specialize (H n Hn). destruct (status_code_family n); [|done].
  by apply String.eqb_eq in H as ->.
Qed.

(** X16. For a three-digit status code, [str(code)[0] + "xx"] is the
    hundreds digit followed by ["xx"]: the family of a status code from 100
    to 999 is that of [code // 100]. *)
Theorem status_code_family_hundreds (n : Z) :
  100 ≤ n ≤ 999 →
  status_code_family n = Ok (pretty (n / 100) +:+ "xx").
Proof.
  intros Hn. pose proof three_digit_families as H.
  rewrite Forall_forall in H. apply H. apply elem_of_seqZ. lia.
Qed.

Section ReportingErrors.

(** X17. [get_metrics_reporting_registry] catches [ValidationError] only:
    any other exception raised by [config.Settings()] leaves the function,
    and no registry has been created. *)
Theorem reporting_other_errors_propagate (env : environment) (r : registry)
    (h : heap) (e : exn) :
  config_Settings env = Raise e →
  e ≠ ValidationError →
  get_metrics_reporting_registry env r h = (Raise e, h).
Proof.
  intros Hs He. unfold get_metrics_reporting_registry. rewrite Hs.
  by destruct e.
Qed.

(** X18. However [get_metrics_reporting_registry] ends, every registry that
    existed before the call holds the collectors it held, the process
    registry among them; and a registry it returns is either the process
    registry or an object that did not exist before the call. *)
Theorem reporting_leaves_registries (env : environment) (r : registry)
    (h h' : heap) (res : result registry) :
  get_metrics_reporting_registry env r h = (res, h') →
  (∀ l, l ∈ dom h → h' !! l = h !! l) ∧
  (∀ x, res = Ok x → x = r ∨ x ∉ dom h).
Proof.
  unfold get_metrics_reporting_registry.
  assert (Hfresh : fresh (dom h) ∉ dom h) by apply is_fresh.
  destruct (config_Settings env) as [[[d|]]|e].
  - unfold new_registry, new_MultiProcessCollector. cbn [prometheus_multiproc_dir].
    destruct (isdir env d); intros [= <- <-].
    + split.
      * intros l Hl. rewrite !lookup_insert_ne; [done|intros <-; done..].
      * intros x [= <-]. by right.
    + split; [|done].
      intros l Hl. rewrite lookup_insert_ne; [done|intros <-; done].
  - intros [= <- <-]. split; [done|]. intros x [= <-]. by left.
  - destruct e; intros [= <- <-]; (split; [done|]); intros x Hx; simplify_eq;
      by left.
Qed.

(** X19. When the settings give a multiprocess directory that is not a
    directory, [MultiProcessCollector] refuses it and
    [get_metrics_reporting_registry] raises its [ValueError] instead of
    falling back to the process registry; the registries that existed
    before the call hold what they held. *)
Theorem reporting_not_a_directory (env : environment) (r : registry)
    (h : heap) (dir : Path) :
  config_Settings env = Ok {| prometheus_multiproc_dir := Some dir |} →
  isdir env dir = false →
  ∃ msg h', get_metrics_reporting_registry env r h = (Raise (ValueError msg), h') ∧
            ∀ l, l ∈ dom h → h' !! l = h !! l.
Proof.
  intros Hs Hd. unfold get_metrics_reporting_registry. rewrite Hs.
  cbn [prometheus_multiproc_dir]. unfold new_registry, new_MultiProcessCollector.
  rewrite Hd. do 2 eexists. split; [done|].
  intros l Hl. apply lookup_insert_ne. intros <-. by apply (is_fresh (dom h)).
Qed.

End ReportingErrors.

Section EndToEnd.
Variable float_repr : Q → string.

Lemma all_at_zero_counter_sample (s : store) name key :
  all_at_zero s → counter_sample s name key = 0%Q.
Proof.
  intros Hz. unfold counter_sample, counter_series.
  destruct (s !! name) as [[ln v ch|]|] eqn:Hs; try done.
  destruct (ch !! key) as [x|] eqn:Hk; [|done].
  simpl. by apply (Hz name _ Hs key x).
Qed.

(** X20. From start-up: on the metrics [init_metrics] creates,
    [init_metrics_labels] for an application all of whose routes are
    accepted, followed by [emit_response_metrics] for a sequence of matched
    requests, all return, and then every request count series reads the
    number of requests of the sequence with its label values, and every
    per-client series the number of those with its label values and a
    truthy client id; pre-registration contributes nothing to the
    counts. *)
Theorem requests_are_counted_from_startup ids app
    (ctxs : list (gmap string value)) :
  Forall (route_accepted (openapi app)) (routes app) →
  Forall complete ctxs →
  ∃ s1 s2,
    init_metrics_labels ids app init_metrics = (Ok tt, s1) ∧
    for_each ctxs (emit_response_metrics float_repr) s1 = (Ok tt, s2) ∧
    (∀ key, (counter_sample s2 "requests" key
             == inject_Z (Z.of_nat (requests_with float_repr key ctxs)))%Q) ∧
    (∀ key, (counter_sample s2 "api_requests" key
             == inject_Z (Z.of_nat (client_requests_with float_repr key ctxs)))%Q).
Proof.
  intros Hrs Hcs.
  pose proof (init_routes_closed (openapi app) (client_ids_or_none ids)
                (routes app) init_metrics init_metrics_well_formed Hrs) as E1.
  rewrite <- (init_metrics_labels_routes ids app _ init_metrics_well_formed) in E1.
  set (s1 := pre_registered _ _ _ init_metrics) in E1.
  destruct (settles_init_metrics_labels ids app _ _ _ E1) as [Hg _].
  assert (Hwf1 : well_formed s1)
    by (eapply well_formed_grows; [apply init_metrics_well_formed|done]).
  assert (Hz1 : all_at_zero s1)
    by (eapply all_at_zero_grows; [done|apply init_metrics_at_zero]).
  destruct (emit_all_counts float_repr ctxs s1 Hwf1 Hcs) as (s2 & E2 & R & A).
  exists s1, s2. split; [done|]. split; [done|].
  split; intros key.
  - rewrite R, (all_at_zero_counter_sample s1) by done. apply Qplus_0_l.
  - rewrite A, (all_at_zero_counter_sample s1) by done. apply Qplus_0_l.
Qed.
End EndToEnd.

(** ** Examples of the further properties *)

Lemma init_metrics_nonempty : init_metrics ≠ ∅.
Proof. apply (store_nonempty _ "requests" (Counter REQUESTS_LABELS 0%Q ∅)). reflexivity. Qed.

Lemma api_context_complete : complete api_context.
Proof.
  split; [exact api_context_printable|]. split; [reflexivity|]. split; [by eexists|]. split; [by exists 200|].
  by exists (VFloat 0.02), 0.02%Q.
Qed.

Lemma anonymous_context_complete : complete anonymous_context.
Proof.
  split; [exact anonymous_context_printable|]. split; [reflexivity|]. split; [by eexists|]. split; [by exists 200|].
  by exists (VFloat 0.02), 0.02%Q.
Qed.

Lemma emit_missing_field_witness :
  emit_response_metrics example_float_repr partial_context init_metrics
  = (Raise (KeyError "method"), init_metrics).
Proof.
  apply (emit_missing_field example_float_repr partial_context init_metrics).
  - exact init_metrics_nonempty.
  - reflexivity.
  - reflexivity.
Defined.

Lemma emit_missing_metric_witness :
  emit_response_metrics example_float_repr api_context other_metrics
  = (Raise (KeyError "requests"), other_metrics).
Proof.
  apply (emit_missing_metric example_float_repr api_context other_metrics
           (VStr "GET") (VFloat 0.02) (VInt 200) "2xx" 0.02%Q
           api_context_printable
           eq_refl eq_refl eq_refl eq_refl eq_refl eq_refl).
  - intros H. apply (f_equal (λ m : store, m !! "pending_acoustic_sync")) in H.
    vm_compute in H. discriminate H.
  - reflexivity.
Defined.

Lemma emit_duration_not_a_number_witness :
  emit_response_metrics example_float_repr untimed_context init_metrics
  = (Raise TypeError,
     touch_store "requests_duration" ["GET"; "/ctms/{id}"; "2xx"]
       (inc_series "requests" ["GET"; "/ctms/{id}"; "200"; "2xx"] init_metrics)).
Proof.
  apply (emit_duration_not_a_number example_float_repr untimed_context init_metrics
           (VStr "GET") VNone (VInt 200) "2xx" init_metrics_well_formed).
  - repeat (apply Forall_cons_2; [vm_compute; reflexivity|]). apply Forall_nil_2.
  - reflexivity.
  - reflexivity.
  - reflexivity.
  - reflexivity.
  - reflexivity.
  - left. reflexivity.
Defined.

Lemma emit_duration_overflow_witness :
  emit_response_metrics example_float_repr overflowing_context init_metrics
  = (Raise OverflowError,
     touch_store "requests_duration" ["GET"; "/ctms/{id}"; "2xx"]
       (inc_series "requests" ["GET"; "/ctms/{id}"; "200"; "2xx"] init_metrics)).
Proof.
  apply (emit_duration_overflow example_float_repr overflowing_context init_metrics
           (VStr "GET") (VInt 200) "2xx" (10 ^ 400) init_metrics_well_formed).
  - repeat (apply Forall_cons_2; [vm_compute; reflexivity|]). apply Forall_nil_2.
  - reflexivity.
  - reflexivity.
  - reflexivity.
  - reflexivity.
  - reflexivity.
  - vm_compute. discriminate.
Defined.

Lemma emit_keeps_shape_witness :
  well_formed (emit_response_metrics example_float_repr api_context init_metrics).2.
Proof.
  apply (emit_keeps_shape example_float_repr api_context init_metrics _
           (emit_response_metrics example_float_repr api_context init_metrics).1
           init_metrics_well_formed).
  vm_compute. reflexivity.
Defined.

Lemma emit_changes_only_request_metrics_witness :
  (emit_response_metrics example_float_repr api_context init_metrics).2
    !! "pending_acoustic_sync"
  = init_metrics !! "pending_acoustic_sync".
Proof.
  destruct (emit_changes_only_request_metrics example_float_repr api_context
              init_metrics
              (emit_response_metrics example_float_repr api_context init_metrics).2
              (emit_response_metrics example_float_repr api_context init_metrics).1)
    as (_ & _ & H).
  - vm_compute. reflexivity.
  - apply H. unfold REQUEST_METRICS. intros Hin.
    apply list_elem_of_In in Hin. simpl in Hin.
    destruct Hin as [Hin|[Hin|[Hin|[]]]]; discriminate Hin.
Defined.

Lemma emit_leaves_other_series_witness :
  ∃ s', emit_response_metrics example_float_repr api_context init_metrics
        = (Ok tt, s') ∧
        counter_series s' "requests" ["GET"; "/ctms/{id}"; "404"; "4xx"]
        = counter_series init_metrics "requests" ["GET"; "/ctms/{id}"; "404"; "4xx"].
Proof.
  destruct (emit_leaves_other_series example_float_repr api_context init_metrics
              init_metrics_well_formed api_context_complete)
    as (s' & E & H & _).
  exists s'. split; [exact E|]. apply H. vm_compute. discriminate.
Defined.

Lemma emit_counts_requests_witness :
  ∃ s', for_each [api_context; anonymous_context; api_context]
          (emit_response_metrics example_float_repr) init_metrics = (Ok tt, s') ∧
        (counter_sample s' "requests" ["GET"; "/ctms/{id}"; "200"; "2xx"] == 3)%Q ∧
        (counter_sample s' "api_requests" ["GET"; "/ctms/{id}"; "abc"; "2xx"] == 2)%Q.
Proof.
  destruct (emit_counts_requests example_float_repr
              [api_context; anonymous_context; api_context] init_metrics
              init_metrics_well_formed)
    as (s' & E & R & A).
  - repeat constructor; (apply api_context_complete || apply anonymous_context_complete).
  - exists s'. split; [exact E|]. split.
    + rewrite R. vm_compute. reflexivity.
    + rewrite A. vm_compute. reflexivity.
Defined.

Lemma emit_observes_buckets_witness :
  ∃ s', emit_response_metrics example_float_repr api_context init_metrics
        = (Ok tt, s') ∧
    let h := histogram_sample DURATION_BUCKETS init_metrics "requests_duration"
               ["GET"; "/ctms/{id}"; "2xx"] in
    let h' := histogram_sample DURATION_BUCKETS s' "requests_duration"
                ["GET"; "/ctms/{id}"; "2xx"] in
    (bucket_sample h' 0 == bucket_sample h 0 + 0)%Q ∧
    (count_sample h' == count_sample h + 1)%Q ∧
    h_sum h' = (h_sum h + 0.02)%Q.
Proof.
  apply (emit_observes_buckets example_float_repr api_context init_metrics
           0%nat (Bound 0.01) init_metrics_well_formed api_context_complete).
  reflexivity.
Defined.

Lemma request_and_duration_series_witness :
  ∃ s', init_metrics_labels ["abc"] example_app init_metrics = (Ok tt, s') ∧
        ["GET"; "/ctms/{id}"; "404"; "4xx"] ∈ series_of s' "requests" ∧
        ["GET"; "/ctms/{id}"; "4xx"] ∈ series_of s' "requests_duration".
Proof.
  destruct (request_and_duration_series ["abc"] example_app init_metrics
              init_metrics_well_formed example_app_accepted)
    as (s' & E & R & D).
  exists s'. split; [exact E|]. split.
  - apply R. right.
    exists ctms_route, [200; 401; 404; 422], true, "GET", 404.
    split; [apply list_elem_of_In; simpl; tauto|].
    split; [vm_compute; reflexivity|].
    split; [apply list_elem_of_In; simpl; tauto|].
    split; [apply list_elem_of_In; simpl; tauto|].
    vm_compute. reflexivity.
  - apply D. right.
    exists ctms_route, [200; 401; 404; 422], true, "GET", 404.
    split; [apply list_elem_of_In; simpl; tauto|].
    split; [vm_compute; reflexivity|].
    split; [apply list_elem_of_In; simpl; tauto|].
    split; [apply list_elem_of_In; simpl; tauto|].
    vm_compute. reflexivity.
Defined.

Lemma init_metrics_labels_stops_at_first_error_witness :
  ∃ s1,
    init_metrics_labels []
      {| routes := [ARoute root_route]; openapi := example_openapi |}
      init_metrics = (Ok tt, s1) ∧
    init_metrics_labels [] mixed_app init_metrics = (Raise AssertionError, s1).
Proof.
  destruct (init_metrics_labels_stops_at_first_error [] mixed_app init_metrics
              [ARoute root_route] [ARoute ctms_route] OtherRoute
              init_metrics_well_formed eq_refl)
    as (s1 & e & E1 & E2 & He).
  - apply Forall_cons_2; [|apply Forall_nil_2].
    simpl. eexists. eexists. vm_compute. reflexivity.
  - simpl. tauto.
  - exists s1. split; [exact E1|]. rewrite <- He. exact E2.
Defined.

Lemma init_metrics_labels_changes_no_sample_witness :
  ∀ name key,
    counter_sample (init_metrics_labels ["abc"] example_app init_metrics).2 name key
    = counter_sample init_metrics name key.
Proof.
  apply (init_metrics_labels_changes_no_sample ["abc"] example_app init_metrics
           (init_metrics_labels ["abc"] example_app init_metrics).2
           (init_metrics_labels ["abc"] example_app init_metrics).1).
  symmetry. apply surjective_pairing.
Defined.

Lemma emission_after_init_creates_no_series_witness :
  ∃ s1 s2,
    init_metrics_labels ["abc"] example_app init_metrics = (Ok tt, s1) ∧
    emit_response_metrics example_float_repr api_context s1 = (Ok tt, s2) ∧
    all_series s2 = all_series s1.
Proof.
  apply (emission_after_init_creates_no_series example_float_repr ["abc"]
           example_app init_metrics ctms_route [200; 401; 404; 422] true
           "GET" 200 api_context init_metrics_well_formed example_app_accepted).
  - apply list_elem_of_In. simpl. tauto.
  - vm_compute. reflexivity.
  - apply list_elem_of_In. simpl. tauto.
  - apply list_elem_of_In. simpl. tauto.
  - discriminate.
  - exact api_context_printable.
  - reflexivity.
  - reflexivity.
  - reflexivity.
  - by exists (VFloat 0.02), 0.02%Q.
  - right. split; [reflexivity|]. exists "abc". split; [reflexivity|].
    left. apply list_elem_of_In. simpl. tauto.
Defined.

Lemma init_route_labels_methods_order_witness :
  init_route_labels example_openapi [] "requests" "requests_duration"
    "api_requests" (ARoute root_route_reversed) init_metrics
  = init_route_labels example_openapi [] "requests" "requests_duration"
      "api_requests" (ARoute root_route) init_metrics.
Proof.
  apply (init_route_labels_methods_order example_openapi [] root_route
           root_route_reversed init_metrics init_metrics_well_formed eq_refl).
  intros m. split; intros H; apply list_elem_of_In in H;
    apply list_elem_of_In; simpl in *; tauto.
Defined.

Lemma init_metrics_labels_routes_order_witness :
  init_metrics_labels ["abc"] example_app_reversed init_metrics
  = init_metrics_labels ["abc"] example_app init_metrics.
Proof.
  apply (init_metrics_labels_routes_order ["abc"] example_app
           example_app_reversed init_metrics init_metrics_well_formed eq_refl).
  - change (reverse (routes example_app) ≡ₚ routes example_app).
    apply reverse_Permutation.
  - exact example_app_accepted.
Defined.

Lemma pubsub_route_has_no_client_series_witness :
  ∃ s', init_route_labels pubsub_openapi ["abc"] "requests" "requests_duration"
          "api_requests" (ARoute pubsub_route) init_metrics = (Ok tt, s') ∧
        s' !! "api_requests" = init_metrics !! "api_requests".
Proof.
  apply (pubsub_route_has_no_client_series pubsub_openapi ["abc"] pubsub_route
           init_metrics init_metrics_well_formed).
  - simpl. eexists. eexists. vm_compute. reflexivity.
  - reflexivity.
Defined.

Lemma status_code_family_hundreds_witness :
  status_code_family 404 = Ok "4xx".
Proof. apply (status_code_family_hundreds 404). lia. Defined.

Lemma reporting_other_errors_propagate_witness :
  get_metrics_reporting_registry (example_env (Raise TypeError))
    1%positive example_heap = (Raise TypeError, example_heap).
Proof.
  apply (reporting_other_errors_propagate (example_env (Raise TypeError))
           1%positive example_heap TypeError eq_refl).
  discriminate.
Defined.

Lemma reporting_leaves_registries_witness :
  (get_metrics_reporting_registry
     (example_env (Ok {| prometheus_multiproc_dir := Some {| fspath := "/tmp/metrics" |} |}))
     1%positive example_heap).2 !! 1%positive
  = example_heap !! 1%positive.
Proof.
  destruct (reporting_leaves_registries
              (example_env (Ok {| prometheus_multiproc_dir := Some {| fspath := "/tmp/metrics" |} |}))
              1%positive example_heap _ _ (surjective_pairing _)) as [H _].
  apply H. apply elem_of_dom. vm_compute. eexists. reflexivity.
Defined.

Lemma reporting_not_a_directory_witness :
  ∃ msg h',
    get_metrics_reporting_registry
      (example_env (Ok {| prometheus_multiproc_dir := Some {| fspath := "/nonexistent" |} |}))
      1%positive example_heap = (Raise (ValueError msg), h') ∧
    ∀ l, l ∈ dom example_heap → h' !! l = example_heap !! l.
Proof.
  apply (reporting_not_a_directory
           (example_env (Ok {| prometheus_multiproc_dir := Some {| fspath := "/nonexistent" |} |}))
           1%positive example_heap {| fspath := "/nonexistent" |}).
  - reflexivity.
  - reflexivity.
Defined.

Lemma requests_are_counted_from_startup_witness :
  ∃ s1 s2,
    init_metrics_labels ["abc"] example_app init_metrics = (Ok tt, s1) ∧
    for_each [api_context; anonymous_context]
      (emit_response_metrics example_float_repr) s1 = (Ok tt, s2) ∧
    (counter_sample s2 "requests" ["GET"; "/ctms/{id}"; "200"; "2xx"] == 2)%Q ∧
    (counter_sample s2 "api_requests" ["GET"; "/ctms/{id}"; "abc"; "2xx"] == 1)%Q ∧
    (counter_sample s2 "requests" ["GET"; "/ctms/{id}"; "404"; "4xx"] == 0)%Q.
Proof.
  destruct (requests_are_counted_from_startup example_float_repr ["abc"]
              example_app [api_context; anonymous_context] example_app_accepted)
    as (s1 & s2 & E1 & E2 & R & A).
  - repeat constructor; (apply api_context_complete || apply anonymous_context_complete).
  - exists s1, s2. split; [exact E1|]. split; [exact E2|].
    split; [rewrite R; vm_compute; reflexivity|].
    split; [rewrite A; vm_compute; reflexivity|].
    rewrite R. vm_compute. reflexivity.
Defined.
